(** * FireDoc: a document handle over a remote document store

    Shallow embedding of [src/FireDoc.ts] (class [FireDoc] and the binder
    [registerFireDoc]) and of the earlier variant of the same class
    ([Main], with the [isNewDocument] flag and an always-merging [save]).

    JavaScript objects are mutable and shared, so the embedding keeps an
    explicit heap: field objects and handles live at locations, methods
    take [this] as a location and run in a state-and-exception monad.
    The Firestore collaborator is a finite map from document paths to
    field maps together with the log of the calls issued to it.

    Every [await] is one step of the monad: a method runs from call to
    return with no other task in between. *)

From Stdlib Require Import ZArith Ascii String ssreflect.
From stdpp Require Import base option gmap strings list fin_maps pretty.

Local Open Scope string_scope.
Local Open Scope list_scope.
Local Open Scope general_if_scope.
#[local] Set Warnings "-register-all,-rewrite-rw".

(** ** Values *)

(** Field values.  [VTimestamp] is the collaborator's native [Timestamp]
    (seconds, nanoseconds), [VDate] a JavaScript [Date] (milliseconds since
    the epoch), [VDelete] the sentinel returned by [FieldValue.delete()].
    Nested maps are left out; arrays stand for every value that can hold
    further values. *)
Inductive value : Type :=
| VUndefined
| VNull
| VBool (b : bool)
| VNum (n : Z)
| VStr (s : string)
| VTimestamp (seconds nanoseconds : Z)
| VDate (ms : Z)
| VDelete
| VArr (items : list value).

(** [typeof value === 'undefined'] *)
Definition is_undefined (v : value) : bool :=
  match v with VUndefined => true | _ => false end.

(** [value instanceof Timestamp] *)
Definition is_Timestamp (v : value) : bool :=
  match v with VTimestamp _ _ => true | _ => false end.

(** A plain JavaScript object used as a record of fields.  Only own
    enumerable string keys are modelled; a key may be present and hold
    [VUndefined].  Inherited properties and the special name [__proto__] are
    outside the model, and so is the order of the keys, which none of the
    modelled methods depends on. *)
Abbreviation Obj := (gmap string value).

(** [Object.keys(o)] *)
Definition Object_keys (o : Obj) : list string := (map_to_list o).*1.

(** [Object.keys(o).includes(key)] *)
Definition keys_includes (o : Obj) (key : string) : bool :=
  bool_decide (key ∈ Object_keys o).

(** [o[key]]: a missing key reads as [undefined]. *)
Definition prop_read (o : Obj) (key : string) : value :=
  default VUndefined (o !! key).

(** ** Handles and the heap *)

Definition loc := positive.

(** [MaybeCallable<string>]: a literal or a zero-argument function. *)
Inductive MaybeCallable : Type :=
| Literal (s : string)
| Callable (f : unit → string).

(** [typeof p === 'function' ? p() : p] *)
Definition resolve (p : MaybeCallable) : string :=
  match p with
  | Literal s => s
  | Callable f => f tt
  end.

Record DocumentReference : Type := {
  ref_path : string;
  ref_id : string
}.

(** The instance fields of a handle.  [isNewDocument] is declared by the
    [Main] variant only (initialised to [false]); [FireDoc] instances never
    change it. *)
Record FireDoc : Type := {
  collectionPath : MaybeCallable;
  docRefId : string;
  docFields : loc;
  docFieldKeysChanged : list string;
  docRef : DocumentReference;
  isNewDocument : bool
}.

(** Calls received by the collaborator, most recent last. *)
Inductive Call : Type :=
| CallGet (path : string)
| CallSet (path : string) (data : Obj) (merge : bool)
| CallDelete (path : string)
| CallQuery (collection : string) (offset limit : nat).

Record State : Type := {
  objects : gmap loc Obj;
  handles : gmap loc FireDoc;
  remote : gmap string Obj;
  calls : list Call;
  autoIds : nat → string;
  autoIdCount : nat
}.

Definition with_objects (f : gmap loc Obj → gmap loc Obj) (σ : State) : State :=
  {| objects := f (objects σ); handles := handles σ; remote := remote σ;
     calls := calls σ; autoIds := autoIds σ; autoIdCount := autoIdCount σ |}.

Definition with_handles (f : gmap loc FireDoc → gmap loc FireDoc) (σ : State) : State :=
  {| objects := objects σ; handles := f (handles σ); remote := remote σ;
     calls := calls σ; autoIds := autoIds σ; autoIdCount := autoIdCount σ |}.

Definition with_remote (f : gmap string Obj → gmap string Obj) (σ : State) : State :=
  {| objects := objects σ; handles := handles σ; remote := f (remote σ);
     calls := calls σ; autoIds := autoIds σ; autoIdCount := autoIdCount σ |}.

Definition log_call (c : Call) (σ : State) : State :=
  {| objects := objects σ; handles := handles σ; remote := remote σ;
     calls := calls σ ++ [c]; autoIds := autoIds σ; autoIdCount := autoIdCount σ |}.

Definition bump_autoId (σ : State) : State :=
  {| objects := objects σ; handles := handles σ; remote := remote σ;
     calls := calls σ; autoIds := autoIds σ; autoIdCount := S (autoIdCount σ) |}.

(** ** The monad *)

Inductive exn : Type :=
| ThrownString (msg : string)
| TypeError
| FirestoreError.

Inductive result (A : Type) : Type :=
| Ok (a : A)
| Throw (e : exn)
| OutOfFuel.
Arguments Ok {A} a.
Arguments Throw {A} e.
Arguments OutOfFuel {A}.

Definition M (A : Type) : Type := State → State * result A.

#[global] Instance M_ret : MRet M := λ A a σ, (σ, Ok a).

#[global] Instance M_bind : MBind M := λ A B k m σ,
  match m σ with
  | (σ', Ok a) => k a σ'
  | (σ', Throw e) => (σ', Throw e)
  | (σ', OutOfFuel) => (σ', OutOfFuel)
  end.

Definition throw {A} (e : exn) : M A := λ σ, (σ, Throw e).
Definition gets {A} (f : State → A) : M A := λ σ, (σ, Ok (f σ)).
Definition modify (f : State → State) : M unit := λ σ, (f σ, Ok tt).

(** Reading through a reference that was never allocated cannot happen in
    the typed program; the model answers with [TypeError] to stay total. *)
Definition unwrap {A} (o : option A) : M A :=
  match o with Some a => mret a | None => throw TypeError end.

Definition new_object (o : Obj) : M loc := λ σ,
  let l := fresh (dom (objects σ)) in
  (with_objects <[l := o]> σ, Ok l).

Definition read_object (l : loc) : M Obj :=
  o ← gets (λ σ, objects σ !! l); unwrap o.

Definition write_object (l : loc) (o : Obj) : M unit :=
  _ ← read_object l; modify (with_objects <[l := o]>).

Definition new_handle (h : FireDoc) : M loc := λ σ,
  let l := fresh (dom (handles σ)) in
  (with_handles <[l := h]> σ, Ok l).

Definition read_handle (this : loc) : M FireDoc :=
  h ← gets (λ σ, handles σ !! this); unwrap h.

Definition write_handle (this : loc) (h : FireDoc) : M unit :=
  _ ← read_handle this; modify (with_handles <[this := h]>).

Definition set_prop (l : loc) (key : string) (v : value) : M unit :=
  o ← read_object l; write_object l (<[key := v]> o).

(** [for (const x of l) { body(x) }] *)
Fixpoint for_of {A} (l : list A) (body : A → M unit) : M unit :=
  match l with
  | [] => mret tt
  | x :: l' => body x;; for_of l' body
  end.

(** ** The Firestore collaborator

    Documents are stored by path.  The contract assumed of the
    collaborator: [get] reports the stored field map or its absence; [set]
    with [merge: true] creates or updates the document field by field, a
    deletion marker removing its field; [set] without merge replaces the
    document by the payload and rejects a payload holding a deletion marker;
    a collection lists the documents directly under its path in one fixed
    order.  Value conversion on write and path validation are not modelled. *)

Fixpoint strip_prefix (p s : string) : option string :=
  match p, s with
  | EmptyString, _ => Some s
  | String a p', String b s' => if Ascii.eqb a b then strip_prefix p' s' else None
  | String _ _, EmptyString => None
  end.

Fixpoint has_slash (s : string) : bool :=
  match s with
  | EmptyString => false
  | String c s' => Ascii.eqb c "/"%char || has_slash s'
  end.

Fixpoint after_last_slash (acc s : string) : string :=
  match s with
  | EmptyString => acc
  | String c s' =>
      if Ascii.eqb c "/"%char then after_last_slash s' s' else after_last_slash acc s'
  end.

(** The id of [path] when it names a document directly under [collection]. *)
Definition doc_id_in (collection path : string) : option string :=
  match strip_prefix (collection +:+ "/") path with
  | Some i => if negb (String.eqb i "") && negb (has_slash i) then Some i else None
  | None => None
  end.

(** The query snapshots of a collection: (id, data) in the native order. *)
Definition collection_docs (r : gmap string Obj) (collection : string)
  : list (string * Obj) :=
  omap (λ pd, (λ i, (i, pd.2)) <$> doc_id_in collection pd.1) (map_to_list r).

(** [firestore.doc(path)] *)
Definition Firestore_doc (path : string) : DocumentReference :=
  {| ref_path := path; ref_id := after_last_slash path path |}.

(** [firestore.collection(path).doc()]: a reference with a generated id. *)
Definition Collection_doc (collection : string) : M DocumentReference :=
  i ← gets (λ σ, autoIds σ (autoIdCount σ));
  modify bump_autoId;;
  mret {| ref_path := collection +:+ "/" +:+ i; ref_id := i |}.

(** [docRef.get()] followed by [snapshot.data()] *)
Definition DocRef_get (r : DocumentReference) : M (option Obj) :=
  modify (log_call (CallGet (ref_path r)));;
  gets (λ σ, remote σ !! ref_path r).

Definition is_delete (v : value) : bool :=
  match v with VDelete => true | _ => false end.

Definition merge_field (old new : option value) : option value :=
  match new with
  | Some VDelete => None
  | Some v => Some v
  | None => old
  end.

(** The stored document after [set(data, {merge})]; [None] when the
    collaborator rejects the write. *)
Definition written (old : option Obj) (data : Obj) (mergeOpt : bool) : option Obj :=
  if mergeOpt then Some (merge merge_field (default ∅ old) data)
  else if existsb is_delete (map_to_list data).*2 then None
  else Some data.

(** [docRef.set(data, {merge})] *)
Definition DocRef_set (r : DocumentReference) (data : Obj) (mergeOpt : bool) : M unit :=
  modify (log_call (CallSet (ref_path r) data mergeOpt));;
  old ← gets (λ σ, remote σ !! ref_path r);
  match written old data mergeOpt with
  | Some d => modify (with_remote <[ref_path r := d]>)
  | None => throw FirestoreError
  end.

(** [docRef.delete()] *)
Definition DocRef_delete (r : DocumentReference) : M unit :=
  modify (log_call (CallDelete (ref_path r)));;
  modify (with_remote (delete (ref_path r))).

(** [collection.offset(offset).limit(limit).get()] and [snapshot.docs] *)
Definition Query_get (collection : string) (offset limit : nat)
  : M (list (string * Obj)) :=
  modify (log_call (CallQuery collection offset limit));;
  gets (λ σ, take limit (drop offset (collection_docs (remote σ) collection))).

(** ** Class [FireDoc] *)

Definition set_docFieldKeysChanged (ks : list string) (h : FireDoc) : FireDoc :=
  {| collectionPath := collectionPath h; docRefId := docRefId h;
     docFields := docFields h; docFieldKeysChanged := ks;
     docRef := docRef h; isNewDocument := isNewDocument h |}.

Definition set_docFields (l : loc) (h : FireDoc) : FireDoc :=
  {| collectionPath := collectionPath h; docRefId := docRefId h;
     docFields := l; docFieldKeysChanged := docFieldKeysChanged h;
     docRef := docRef h; isNewDocument := isNewDocument h |}.

(** [if(id)]: an omitted id and the empty string are both falsy. *)
Definition truthy (id : option string) : bool :=
  match id with
  | Some s => negb (String.eqb s "")
  | None => false
  end.

(** [constructor] of [FireDoc] (src/FireDoc.ts).  [docFields] defaults to a
    new empty object; a supplied object is shared with the caller.  The
    path given to [firestore.doc] is [this.getDocumentPath()], computed
    from the collection path and the id just assigned. *)
Definition FireDoc_constructor (id : option string) (fields : option loc)
    (path : MaybeCallable) : M loc :=
  fields ← match fields with Some l => mret l | None => new_object ∅ end;
  if truthy id then
    let docRefId := default "" id in
    new_handle {| collectionPath := path; docRefId := docRefId;
                  docFields := fields; docFieldKeysChanged := [];
                  docRef := Firestore_doc (resolve path +:+ "/" +:+ docRefId);
                  isNewDocument := false |}
  else
    docRef ← Collection_doc (resolve path);
    new_handle {| collectionPath := path; docRefId := ref_id docRef;
                  docFields := fields; docFieldKeysChanged := [];
                  docRef := docRef; isNewDocument := false |}.

(** [constructor] of [Main], the variant carrying [isNewDocument]. *)
Definition Main_constructor (id : option string) (fields : option loc)
    (path : MaybeCallable) : M loc :=
  fields ← match fields with Some l => mret l | None => new_object ∅ end;
  if truthy id then
    let docRefId := default "" id in
    new_handle {| collectionPath := path; docRefId := docRefId;
                  docFields := fields; docFieldKeysChanged := [];
                  docRef := Firestore_doc (resolve path +:+ "/" +:+ docRefId);
                  isNewDocument := false |}
  else
    docRef ← Collection_doc (resolve path);
    new_handle {| collectionPath := path; docRefId := ref_id docRef;
                  docFields := fields; docFieldKeysChanged := [];
                  docRef := docRef; isNewDocument := true |}.

Definition getCollectionPath (this : loc) : M string :=
  h ← read_handle this; mret (resolve (collectionPath h)).

(** [get id()] *)
Definition get_id (this : loc) : M string :=
  h ← read_handle this; mret (docRefId h).

Definition getDocumentPath (this : loc) : M string :=
  c ← getCollectionPath this;
  i ← get_id this;
  mret (c +:+ "/" +:+ i).

Definition getDocDataForSaveOperation (this : loc) (onlyChanged : option bool)
  : M loc :=
  let onlyChanged := default false onlyChanged in
  docFieldsToSave ← new_object ∅;
  h ← read_handle this;
  (if onlyChanged then
     for_of (docFieldKeysChanged h) (λ key,
       fields ← read_object (docFields h);
       if keys_includes fields key
       then set_prop docFieldsToSave key (prop_read fields key)
       else mret tt)
   else
     fields ← read_object (docFields h);
     target ← read_object docFieldsToSave;
     write_object docFieldsToSave (fields ∪ target));;
  mret docFieldsToSave.

Definition resetDocFieldKeysChanged (this : loc) : M loc :=
  h ← read_handle this;
  write_handle this (set_docFieldKeysChanged [] h);;
  mret this.

Definition getAllFields (this : loc) : M loc :=
  h ← read_handle this; mret (docFields h).

Section Normalization.
(** [Timestamp.prototype.toDate] of the collaborator's library, as the
    milliseconds of the resulting [Date]. *)
Variable toDate : Z → Z → Z.

Definition getField (this : loc) (fieldName : string) : M value :=
  h ← read_handle this;
  fields ← read_object (docFields h);
  let value := prop_read fields fieldName in
  mret (match value with
        | VTimestamp seconds nanoseconds => VDate (toDate seconds nanoseconds)
        | _ => value
        end).
End Normalization.

Definition setField (this : loc) (fieldName : string) (v : value) : M loc :=
  h ← read_handle this;
  set_prop (docFields h) fieldName (if is_undefined v then VDelete else v);;
  h ← read_handle this;
  write_handle this
    (set_docFieldKeysChanged (docFieldKeysChanged h ++ [fieldName]) h);;
  mret this.

Definition not_found (i : string) : exn :=
  ThrownString ("Document " +:+ i +:+ " does not exist").

Definition load (this : loc) : M loc :=
  h ← read_handle this;
  snapshot ← DocRef_get (docRef h);
  match snapshot with
  | Some data =>
      docData ← new_object data;
      resetDocFieldKeysChanged this;;
      h ← read_handle this;
      write_handle this (set_docFields docData h)
  | None =>
      i ← get_id this;
      throw (not_found i)
  end;;
  mret this.

(** The argument of [save]: a boolean, ['changes'] or ['overwrite']. *)
Inductive SaveOption : Type :=
| OptBool (b : bool)
| OptChanges
| OptOverwrite.

(** [typeof option === 'boolean' ? option : option === 'changes'], with the
    default ['changes'] for an omitted argument. *)
Definition onlyChanges_of (opt : option SaveOption) : bool :=
  match default OptChanges opt with
  | OptBool b => b
  | OptChanges => true
  | OptOverwrite => false
  end.

(** [save] of [FireDoc] (src/FireDoc.ts): [{merge: onlyChanges}]. *)
Definition FireDoc_save (this : loc) (opt : option SaveOption) : M loc :=
  let onlyChanges := onlyChanges_of opt in
  docData ← getDocDataForSaveOperation this (Some onlyChanges);
  resetDocFieldKeysChanged this;;
  payload ← read_object docData;
  (if negb (length (Object_keys payload) =? 0)%nat
   then h ← read_handle this; DocRef_set (docRef h) payload onlyChanges
   else mret tt);;
  mret this.

(** [save] of [Main]: [{merge: true}] whatever the option. *)
Definition Main_save (this : loc) (opt : option SaveOption) : M loc :=
  let onlyChanges := onlyChanges_of opt in
  docData ← getDocDataForSaveOperation this (Some onlyChanges);
  resetDocFieldKeysChanged this;;
  payload ← read_object docData;
  (if negb (length (Object_keys payload) =? 0)%nat
   then h ← read_handle this; DocRef_set (docRef h) payload true
   else mret tt);;
  mret this.

(** [delete] *)
Definition delete_doc (this : loc) : M loc :=
  h ← read_handle this;
  DocRef_delete (docRef h);;
  mret this.

(** ** The binder [registerFireDoc]: [withRawFilter] *)

(** JavaScript numbers, as far as integer arguments can produce them. *)
Inductive number : Type :=
| Num (z : Z)
| Infinity
| NaN.

(** [Math.ceil(a / b)] for integers [a >= 0] and [b]. *)
Definition Math_ceil_div (a b : Z) : number :=
  if (b =? 0)%Z then (if (a =? 0)%Z then NaN else Infinity)
  else Num (- ((- a) `div` b))%Z.

(** [Array.prototype.slice(start, end)] for integer arguments: a negative
    index counts from the end, both are clamped to the array. *)
Definition relative_index (len i : Z) : Z :=
  if (i <? 0)%Z then Z.max (len + i) 0 else Z.min i len.

Definition Array_slice {A} (l : list A) (start finish : Z) : list A :=
  let len := Z.of_nat (length l) in
  let k := relative_index len start in
  let final := relative_index len finish in
  take (Z.to_nat (final - k)) (drop (Z.to_nat k) l).

Definition searchPerPage : nat := 100.

(** The [while(true)] loop.  [fuel] bounds the number of iterations. *)
Fixpoint scan (fuel : nat) (collection : string) (filter : Obj → string → bool)
    (searchPage : nat) (searchFoundItemIds : list string) : M (list string) :=
  match fuel with
  | O => λ σ, (σ, OutOfFuel)
  | S fuel' =>
      docs ← Query_get collection (searchPage * searchPerPage) searchPerPage;
      let ids := (List.filter (λ doc, filter doc.2 doc.1) docs).*1 in
      if (length ids =? 0)%nat then mret searchFoundItemIds
      else scan fuel' collection filter (S searchPage) (searchFoundItemIds ++ ids)
  end.

(** [withRawFilter(firestore, {page, perPage, filter})].  [page] and
    [perPage] are JavaScript numbers and are taken to be integers; [filter]
    is a pure predicate on the data and the id of a document.  The handles of
    [Promise.all(ids.map(...))] are built and loaded one after the other, in
    the order of the ids. *)
Definition withRawFilter (path : MaybeCallable) (fuel : nat)
    (page perPage : Z) (filter : Obj → string → bool) : M (number * list loc) :=
  searchFoundItemIds ← scan fuel (resolve path) filter 0 [];
  let allPages := Math_ceil_div (Z.of_nat (length searchFoundItemIds)) perPage in
  let idsFilteredByPagination :=
    Array_slice searchFoundItemIds (perPage * (page - 1)) (perPage * page) in
  docs ← mapM (λ i, this ← FireDoc_constructor (Some i) None path; load this)
              idsFilteredByPagination;
  mret (allPages, docs).

(** ** Further members of the class and of the binder *)

(** [Object.entries(o)].  The entries come in the order of the map, which
    is not the insertion order of JavaScript; the properties of [setFields]
    are stated for every order of the entries. *)
Definition Object_entries (o : Obj) : list (string * value) := map_to_list o.

(** [entries.forEach(([key, value]) => this.setField(key, value))] *)
Definition forEach_setField (this : loc) (entries : list (string * value))
  : M unit :=
  for_of entries (λ entry, setField this entry.1 entry.2;; mret tt).

(** [setFields(fields)]: the entries are taken once, before the first
    [setField]. *)
Definition setFields (this : loc) (fields : loc) : M loc :=
  o ← read_object fields;
  forEach_setField this (Object_entries o);;
  mret this.

(** [create(id?, fields?)] of the binder *)
Definition create (path : MaybeCallable) (id : option string)
    (fields : option loc) : M loc :=
  FireDoc_constructor id fields path.


(** A native query, restricted to those built from the collection of the
    binder by [offset] and [limit]. *)
Record Query : Type := {
  query_collection : string;
  query_offset : nat;
  query_limit : nat
}.

(** [collection()] of the binder: the reference of the collection, known
    by its path. *)
Definition collection (path : MaybeCallable) : string := resolve path.

(** [withQuery(query)]: every snapshot becomes a handle that holds a new
    object with the data of the snapshot. *)
Definition withQuery (path : MaybeCallable) (query : Query) : M (list loc) :=
  docs ← Query_get (query_collection query) (query_offset query)
                   (query_limit query);
  mapM (λ doc : string * Obj,
          data ← new_object doc.2;
          FireDoc_constructor (Some doc.1) (Some data) path)
       docs.

(** [withDocRef(docRef)]: [doc.data()] is [undefined] for a missing
    document, and the constructor then takes its default [{}]. *)
Definition withDocRef (path : MaybeCallable) (docRef : DocumentReference)
  : M loc :=
  snapshot ← DocRef_get docRef;
  data ← match snapshot with
         | Some d => l ← new_object d; mret (Some l)
         | None => mret None
         end;
  FireDoc_constructor (Some (ref_id docRef)) data path.

(** ** Auxiliary definitions used to state the properties *)

(** The object built by the [onlyChanged] loop of
    [getDocDataForSaveOperation] from the fields [o] and the changed keys
    [ks], starting from [acc]. *)
Definition pick (o : Obj) (ks : list string) (acc : Obj) : Obj :=
  foldl (λ a key, match o !! key with Some v => <[key := v]> a | None => a end)
        acc ks.

Definition payload_of (onlyChanged : bool) (h : FireDoc) (o : Obj) : Obj :=
  if onlyChanged then pick o (docFieldKeysChanged h) ∅ else o.

(** The outcome of [save] on a handle [h] at [this] with fields [o], for
    the flags [b] given to [getDocDataForSaveOperation] and [m] given to
    [set]. *)
Definition saved (σ : State) (this : loc) (h : FireDoc) (o : Obj) (b m : bool)
  : State * result loc :=
  let payload := payload_of b h o in
  let σ2 := with_handles <[this := set_docFieldKeysChanged [] h]>
              (with_objects <[fresh (dom (objects σ)) := payload]> σ) in
  if decide (payload = ∅) then (σ2, Ok this)
  else
    let σ3 := log_call (CallSet (ref_path (docRef h)) payload m) σ2 in
    match written (remote σ !! ref_path (docRef h)) payload m with
    | Some d => (with_remote <[ref_path (docRef h) := d]> σ3, Ok this)
    | None => (σ3, Throw FirestoreError)
    end.

(** [save] leaves the handle at [this] with no changed keys and calls the
    collaborator's [set] exactly when [payload] is not empty. *)
Definition clears_and_writes_iff_nonempty
    (save : loc → option SaveOption → M loc)
    (σ : State) (this : loc) (h : FireDoc) (opt : option SaveOption)
    (payload : Obj) : Prop :=
  ∃ σ' r m,
    save this opt σ = (σ', r) ∧
    handles σ' !! this = Some (set_docFieldKeysChanged [] h) ∧
    calls σ' = (calls σ ++
      (if decide (payload = ∅) then []
       else [CallSet (ref_path (docRef h)) payload m]))%list ∧
    (payload = ∅ → remote σ' = remote σ ∧ r = Ok this).

(** A world with three documents under [users] and nothing on the heap. *)
Definition example_remote : gmap string Obj :=
  {[ "users/a" := {[ "n" := VNum 1; "t" := VTimestamp 5 0 ]};
     "users/b" := {[ "n" := VNum 2 ]};
     "users/c" := {[ "n" := VNum 3 ]};
     "users/c/posts/p" := {[ "title" := VStr "p" ]};
     "other/z" := ∅ ]}.

Definition example_state : State :=
  {| objects := ∅; handles := ∅; remote := example_remote; calls := [];
     autoIds := λ n, "auto" +:+ pretty n; autoIdCount := 0 |}.

(** The same world holding the object [{n: 7, t: Timestamp(9, 0)}] at
    location 1. *)
Definition example_state0 : State :=
  {| objects := {[ 1%positive := {[ "n" := VNum 7; "t" := VTimestamp 9 0 ]} ]};
     handles := ∅; remote := example_remote; calls := [];
     autoIds := λ n, "auto" +:+ pretty n; autoIdCount := 0 |}.

(** The same world after [create("a", {n: 7, t: Timestamp(9, 0)})] and
    [setField("n", 8)]: one handle at location 1, fields at location 1. *)
Definition example_handle : FireDoc :=
  {| collectionPath := Literal "users"; docRefId := "a"; docFields := 1%positive;
     docFieldKeysChanged := ["n"]; docRef := Firestore_doc "users/a";
     isNewDocument := false |}.

Definition example_fields : Obj := {[ "n" := VNum 8; "t" := VTimestamp 9 0 ]}.

Definition example_state1 : State :=
  {| objects := {[ 1%positive := example_fields ]};
     handles := {[ 1%positive := example_handle ]};
     remote := example_remote; calls := [];
     autoIds := λ n, "auto" +:+ pretty n; autoIdCount := 0 |}.

(** What [getField] answers for a stored value [v]. *)
Definition normalized (toDate : Z → Z → Z) (v : value) : value :=
  match v with
  | VTimestamp seconds nanoseconds => VDate (toDate seconds nanoseconds)
  | _ => v
  end.


(** ** Windows of the scan *)

Definition log_calls (cs : list Call) (σ : State) : State :=
  {| objects := objects σ; handles := handles σ; remote := remote σ;
     calls := (calls σ ++ cs)%list; autoIds := autoIds σ;
     autoIdCount := autoIdCount σ |}.

(** Window [j] of the listing [docs]: what the query at offset
    [j * searchPerPage] with limit [searchPerPage] answers. *)
Definition window (docs : list (string * Obj)) (j : nat) : list (string * Obj) :=
  take searchPerPage (drop (j * searchPerPage) docs).

(** The ids of window [j] that pass the filter, in window order. *)
Definition window_matches (filter : Obj → string → bool)
    (docs : list (string * Obj)) (j : nat) : list string :=
  (List.filter (λ doc, filter doc.2 doc.1) (window docs j)).*1.

(** The matches of the [k] windows starting at window [from]. *)
Definition scanned (filter : Obj → string → bool)
    (docs : list (string * Obj)) (from k : nat) : list string :=
  mjoin (window_matches filter docs <$> seq from k).

(** The queries for the [k] windows starting at window [from]. *)
Definition queries (collection : string) (from k : nat) : list Call :=
  (λ j, CallQuery collection (j * searchPerPage) searchPerPage) <$> seq from k.

(** The handle at [this] is a loaded handle for the document [i] of the
    collection at [path]. *)
Definition loaded (σ : State) (path : MaybeCallable) (this : loc) (i : string)
  : Prop :=
  ∃ h (data : Obj),
    handles σ !! this = Some h ∧
    docRefId h = i ∧
    docRef h = Firestore_doc (resolve path +:+ "/" +:+ i) ∧
    docFieldKeysChanged h = [] ∧
    objects σ !! docFields h = Some data ∧
    remote σ !! (resolve path +:+ "/" +:+ i) = Some data.

(** A collection [items] of 250 documents, that is three scan windows. *)
Definition big_remote : gmap string Obj :=
  list_to_map
    ((λ n, ("items/" +:+ pretty n, {[ "n" := VNum (Z.of_nat n) ]}) : string * Obj)
       <$> seq 0 250).

Definition big_state : State :=
  {| objects := ∅; handles := ∅; remote := big_remote; calls := [];
     autoIds := λ n, "auto" +:+ pretty n; autoIdCount := 0 |}.

(** Matches at positions 3 and 50 of the listing (first window) and 220
    (third window); none in the second window. *)
Definition sparse_filter : Obj → string → bool :=
  λ _ i, bool_decide (i ∈ ["79"; "172"; "206"]).

(** Five matches, at positions 3, 10, 25, 40 and 99 of the listing. *)
Definition five_filter : Obj → string → bool :=
  λ _ i, bool_decide (i ∈ ["79"; "7"; "59"; "94"; "167"]).

(** ** Invariants of the heap of handles *)

(** The handle [h] has its fields object, and every changed key is a key of
    that object. *)
Definition good (σ : State) (h : FireDoc) : Prop :=
  ∃ o : Obj, objects σ !! docFields h = Some o ∧
             ∀ key, key ∈ docFieldKeysChanged h → is_Some (o !! key).

Definition tracked (σ : State) : Prop :=
  ∀ this h, handles σ !! this = Some h → good σ h.

(** What a handle is bound to. *)
Definition same_identity (h h' : FireDoc) : Prop :=
  docRefId h' = docRefId h ∧ docRef h' = docRef h ∧
  collectionPath h' = collectionPath h ∧ isNewDocument h' = isNewDocument h.

(** From [σ] to [σ']: objects stay and keep their keys, handles stay, are
    bound as before and stay good, and new handles are good. *)
Definition evolves (σ σ' : State) : Prop :=
  (∀ l (o : Obj), objects σ !! l = Some o →
     ∃ o' : Obj, objects σ' !! l = Some o' ∧
                 ∀ key, is_Some (o !! key) → is_Some (o' !! key)) ∧
  (∀ this h, handles σ !! this = Some h →
     ∃ h', handles σ' !! this = Some h' ∧ same_identity h h' ∧
           (good σ h → good σ' h')) ∧
  (∀ this h', handles σ' !! this = Some h' → handles σ !! this = None →
     good σ' h').

(** Running [m] from a tracked state that satisfies [P] evolves the state,
    and a returned value satisfies [Q]. *)
Definition keeps {A} (P : State → Prop) (m : M A) (Q : A → State → Prop)
  : Prop :=
  ∀ σ, tracked σ → P σ →
       evolves σ (m σ).1 ∧ ∀ a, (m σ).2 = Ok a → Q a (m σ).1.

(** The calls a program can make on the handles and the binder, and a
    change of the remote store by another client. *)
Inductive Op : Type :=
| OpObject (o : Obj)
| OpCreate (path : MaybeCallable) (id : option string) (fields : option loc)
| OpCreateMain (path : MaybeCallable) (id : option string) (fields : option loc)
| OpSetField (this : loc) (fieldName : string) (v : value)
| OpSetFields (this fields : loc)
| OpReset (this : loc)
| OpGetDataForSave (this : loc) (onlyChanged : option bool)
| OpLoad (this : loc)
| OpSave (this : loc) (opt : option SaveOption)
| OpSaveMain (this : loc) (opt : option SaveOption)
| OpDelete (this : loc)
| OpWithQuery (path : MaybeCallable) (query : Query)
| OpWithDocRef (path : MaybeCallable) (docRef : DocumentReference)
| OpWithRawFilter (path : MaybeCallable) (fuel : nat) (page perPage : Z)
    (filter : Obj → string → bool)
| OpRemote (r : gmap string Obj).

Definition run_op (op : Op) (σ : State) : State :=
  match op with
  | OpObject o => (new_object o σ).1
  | OpCreate path id fields => (create path id fields σ).1
  | OpCreateMain path id fields => (Main_constructor id fields path σ).1
  | OpSetField this fieldName v => (setField this fieldName v σ).1
  | OpSetFields this fields => (setFields this fields σ).1
  | OpReset this => (resetDocFieldKeysChanged this σ).1
  | OpGetDataForSave this b => (getDocDataForSaveOperation this b σ).1
  | OpLoad this => (load this σ).1
  | OpSave this opt => (FireDoc_save this opt σ).1
  | OpSaveMain this opt => (Main_save this opt σ).1
  | OpDelete this => (delete_doc this σ).1
  | OpWithQuery path query => (withQuery path query σ).1
  | OpWithDocRef path docRef => (withDocRef path docRef σ).1
  | OpWithRawFilter path fuel page perPage filter =>
      (withRawFilter path fuel page perPage filter σ).1
  | OpRemote r => with_remote (λ _, r) σ
  end.

(** An object handed to a constructor exists. *)
Definition allowed (σ : State) (op : Op) : Prop :=
  match op with
  | OpCreate _ _ (Some l) | OpCreateMain _ _ (Some l) => is_Some (objects σ !! l)
  | _ => True
  end.

(** The states a program reaches from [σ0]. *)
Inductive reachable (σ0 : State) : State → Prop :=
| reachable_start : reachable σ0 σ0
| reachable_step σ op :
    reachable σ0 σ → allowed σ op → reachable σ0 (run_op op σ).


(** Values the collaborator stores as they are written: scalars, native
    timestamps and arrays of these. *)
Definition scalar (v : value) : bool :=
  match v with
  | VNull | VBool _ | VNum _ | VStr _ | VTimestamp _ _ => true
  | _ => false
  end.

Definition stored_as_is (v : value) : bool :=
  match v with
  | VArr items => forallb scalar items
  | _ => scalar v
  end.

(** What [setField] stores for [v]. *)
Definition to_store (v : value) : value := if is_undefined v then VDelete else v.

(** The object given to a constructor exists. *)
Definition fields_exist (σ : State) (fields : option loc) : Prop :=
  match fields with
  | Some l => is_Some (objects σ !! l)
  | None => True
  end.


(** The example world with its handle and no pending change. *)
Definition example_state0' : State :=
  {| objects := {[ 1%positive := example_fields ]};
     handles := {[ 1%positive := set_docFieldKeysChanged [] example_handle ]};
     remote := example_remote; calls := [];
     autoIds := λ n, "auto" +:+ pretty n; autoIdCount := 0 |}.


(** The handle at [this] is a handle for the document [i] of the
    collection at [path], holds [data] and has no changed key. *)
Definition populated (σ : State) (path : MaybeCallable) (this : loc)
    (i : string) (data : Obj) : Prop :=
  ∃ h,
    handles σ !! this = Some h ∧
    docRefId h = i ∧
    docRef h = Firestore_doc (resolve path +:+ "/" +:+ i) ∧
    docFieldKeysChanged h = [] ∧
    objects σ !! docFields h = Some data.

(** The precondition that holds of every state. *)
Definition any : State → Prop := λ _, True.

(** * Properties *)

(** ** Running the monad *)

Lemma bind_run {A B} (m : M A) (k : A → M B) σ :
  (m ≫= k) σ = match m σ with
               | (σ', Ok a) => k a σ'
               | (σ', Throw e) => (σ', Throw e)
               | (σ', OutOfFuel) => (σ', OutOfFuel)
               end.
Proof. reflexivity. Qed.

Lemma bind_ok {A B} (m : M A) (k : A → M B) σ σ' a :
  m σ = (σ', Ok a) → (m ≫= k) σ = k a σ'.
Proof. intros E. by rewrite bind_run E. Qed.

Lemma State_eq σ τ :
  objects σ = objects τ → handles σ = handles τ → remote σ = remote τ →
  calls σ = calls τ → autoIds σ = autoIds τ → autoIdCount σ = autoIdCount τ →
  σ = τ.
Proof. destruct σ, τ; simpl; intros; by subst. Qed.

Lemma read_handle_run σ this h :
  handles σ !! this = Some h → read_handle this σ = (σ, Ok h).
Proof. intros E. rewrite /read_handle bind_run /gets E. done. Qed.

Lemma read_object_run σ l o :
  objects σ !! l = Some o → read_object l σ = (σ, Ok o).
Proof. intros E. rewrite /read_object bind_run /gets E. done. Qed.

Lemma write_handle_run σ this h h' :
  handles σ !! this = Some h →
  write_handle this h' σ = (with_handles <[this := h']> σ, Ok tt).
Proof.
  intros E. rewrite /write_handle. by rewrite (bind_ok _ _ _ _ _ (read_handle_run _ _ _ E)).
Qed.

Lemma write_object_run σ l o o' :
  objects σ !! l = Some o →
  write_object l o' σ = (with_objects <[l := o']> σ, Ok tt).
Proof.
  intros E. rewrite /write_object. by rewrite (bind_ok _ _ _ _ _ (read_object_run _ _ _ E)).
Qed.

Lemma set_prop_run σ l o key v :
  objects σ !! l = Some o →
  set_prop l key v σ = (with_objects <[l := <[key := v]> o]> σ, Ok tt).
Proof.
  intros E. rewrite /set_prop (bind_ok _ _ _ _ _ (read_object_run _ _ _ E)).
  by apply write_object_run with o.
Qed.

Lemma with_objects_insert_insert l (a b : Obj) σ :
  with_objects <[l := a]> (with_objects <[l := b]> σ) = with_objects <[l := a]> σ.
Proof. apply State_eq; simpl; try done. apply insert_insert_eq. Qed.

Lemma with_objects_insert_id l (a : Obj) σ :
  objects σ !! l = Some a → with_objects <[l := a]> σ = σ.
Proof. intros E. apply State_eq; simpl; try done. by apply insert_id. Qed.

(** The example world with a handle is what [create] and [setField] build. *)
Example example_state1_reached :
  (this ← FireDoc_constructor (Some "a") (Some 1%positive) (Literal "users");
   setField this "n" (VNum 8)) example_state0
  = (example_state1, Ok 1%positive).
Proof. vm_compute. reflexivity. Qed.

(** ** Keys of an object *)

Lemma elem_of_Object_keys (o : Obj) key : key ∈ Object_keys o ↔ is_Some (o !! key).
Proof.
  rewrite /Object_keys list_elem_of_fmap. split.
  - intros [[k v] [-> H%elem_of_map_to_list]]. by exists v.
  - intros [v H]. exists (key, v). split; [done|]. by apply elem_of_map_to_list.
Qed.

Lemma keys_includes_spec (o : Obj) key :
  keys_includes o key = true ↔ is_Some (o !! key).
Proof. rewrite /keys_includes bool_decide_eq_true. apply elem_of_Object_keys. Qed.

Lemma no_keys_iff (o : Obj) : (length (Object_keys o) =? 0)%nat = true ↔ o = ∅.
Proof.
  rewrite Nat.eqb_eq /Object_keys length_fmap -map_to_list_empty_iff.
  split; [apply nil_length_inv | by intros ->].
Qed.

Lemma NoDup_Object_keys (o : Obj) : NoDup (Object_keys o).
Proof. apply NoDup_fst_map_to_list. Qed.

(** ** [getDocDataForSaveOperation] *)

Lemma lookup_pick (o : Obj) (ks : list string) (acc : Obj) (key : string) :
  pick o ks acc !! key =
    if decide (key ∈ ks)
    then match o !! key with Some v => Some v | None => acc !! key end
    else acc !! key.
Proof.
  revert acc. induction ks as [|x ks IH]; intros acc.
  - simpl. destruct (decide (key ∈ [])) as [Hin|]; [|done].
    by apply not_elem_of_nil in Hin.
  - rewrite /pick /= -/(pick o ks _) IH.
    destruct (decide (key = x)) as [->|Hne].
    + rewrite (decide_True (P := x ∈ x :: ks)); [apply list_elem_of_here|].
      destruct (o !! x) as [v|] eqn:Ex.
      * rewrite lookup_insert_eq. by case_decide.
      * by case_decide.
    + destruct (decide (key ∈ ks)) as [Hin|Hnin].
      * rewrite (decide_True (P := key ∈ x :: ks)); [by apply list_elem_of_further|].
        destruct (o !! key); [done|].
        destruct (o !! x); [by rewrite lookup_insert_ne|done].
      * rewrite (decide_False (P := key ∈ x :: ks)); [by apply not_elem_of_cons|].
        destruct (o !! x); [by rewrite lookup_insert_ne|done].
Qed.

Lemma for_of_pick σ l fields (o : Obj) ks (acc : Obj) :
  l ≠ fields →
  objects σ !! fields = Some o →
  objects σ !! l = Some acc →
  for_of ks (λ key,
      f ← read_object fields;
      if keys_includes f key then set_prop l key (prop_read f key) else mret tt) σ
  = (with_objects <[l := pick o ks acc]> σ, Ok tt).
Proof.
  intros Hne. revert σ acc. induction ks as [|x ks IH]; intros σ acc Ho Hacc.
  - simpl. by rewrite with_objects_insert_id.
  - cbn [for_of]. rewrite bind_run (bind_ok _ _ _ _ _ (read_object_run _ _ _ Ho)).
    destruct (keys_includes o x) eqn:Ek.
    + apply keys_includes_spec in Ek as [v Ev].
      rewrite (set_prop_run _ _ _ _ _ Hacc) /prop_read Ev /=.
      rewrite (IH _ (<[x := v]> acc)).
      * simpl. by rewrite lookup_insert_ne.
      * simpl. by rewrite lookup_insert_eq.
      * by rewrite with_objects_insert_insert /pick /= Ev.
    + assert (o !! x = None) as Ev.
      { destruct (o !! x) eqn:E; [|done].
        assert (keys_includes o x = true) by (apply keys_includes_spec; eauto).
        congruence. }
      rewrite /mret /M_ret (IH _ acc Ho Hacc). by rewrite /pick /= Ev.
Qed.

Lemma getDocDataForSaveOperation_run σ this h (o : Obj) b :
  handles σ !! this = Some h →
  objects σ !! docFields h = Some o →
  getDocDataForSaveOperation this (Some b) σ
  = (with_objects <[fresh (dom (objects σ)) := payload_of b h o]> σ,
     Ok (fresh (dom (objects σ)))).
Proof.
  intros Hh Ho. rewrite /getDocDataForSaveOperation /=.
  set (l := fresh (dom (objects σ))).
  assert (objects σ !! l = None) as Hl.
  { apply not_elem_of_dom, is_fresh. }
  assert (l ≠ docFields h) as Hne by (intros ->; congruence).
  rewrite bind_run /new_object -/l.
  set (σ1 := with_objects <[l := ∅]> σ).
  assert (handles σ1 !! this = Some h) as Hh1 by done.
  assert (objects σ1 !! docFields h = Some o) as Ho1.
  { rewrite /σ1 /=. by rewrite lookup_insert_ne. }
  assert (objects σ1 !! l = Some ∅) as Hl1.
  { rewrite /σ1 /=. by rewrite lookup_insert_eq. }
  rewrite (bind_ok _ _ _ _ _ (read_handle_run _ _ _ Hh1)).
  destruct b; rewrite bind_run /=.
  - rewrite (for_of_pick _ _ _ _ _ _ Hne Ho1 Hl1).
    by rewrite /σ1 with_objects_insert_insert.
  - rewrite (bind_ok _ _ _ _ _ (read_object_run _ _ _ Ho1)).
    rewrite (bind_ok _ _ _ _ _ (read_object_run _ _ _ Hl1)).
    rewrite (write_object_run _ _ _ _ Hl1) /σ1 with_objects_insert_insert.
    by rewrite (right_id_L ∅ (∪)).
Qed.

(** ** [save] *)

Lemma resetDocFieldKeysChanged_run σ this h :
  handles σ !! this = Some h →
  resetDocFieldKeysChanged this σ
  = (with_handles <[this := set_docFieldKeysChanged [] h]> σ, Ok this).
Proof.
  intros Hh. rewrite /resetDocFieldKeysChanged.
  rewrite (bind_ok _ _ _ _ _ (read_handle_run _ _ _ Hh)).
  by rewrite bind_run (write_handle_run _ _ _ _ Hh).
Qed.

Lemma save_run σ this h (o : Obj) b m :
  handles σ !! this = Some h →
  objects σ !! docFields h = Some o →
  (docData ← getDocDataForSaveOperation this (Some b);
   resetDocFieldKeysChanged this;;
   payload ← read_object docData;
   (if negb (length (Object_keys payload) =? 0)%nat
    then h ← read_handle this; DocRef_set (docRef h) payload m
    else mret tt);;
   mret this) σ
  = saved σ this h o b m.
Proof.
  intros Hh Ho.
  rewrite (bind_ok _ _ _ _ _ (getDocDataForSaveOperation_run _ _ _ _ b Hh Ho)).
  set (l := fresh (dom (objects σ))). set (P := payload_of b h o).
  set (σ1 := with_objects <[l := P]> σ).
  assert (handles σ1 !! this = Some h) as Hh1 by done.
  rewrite bind_run (resetDocFieldKeysChanged_run _ _ _ Hh1).
  set (σ2 := with_handles _ σ1).
  assert (objects σ2 !! l = Some P) as Hl2.
  { rewrite /σ2 /σ1 /=. by rewrite lookup_insert_eq. }
  assert (handles σ2 !! this = Some (set_docFieldKeysChanged [] h)) as Hh2.
  { rewrite /σ2 /=. by rewrite lookup_insert_eq. }
  rewrite (bind_ok _ _ _ _ _ (read_object_run _ _ _ Hl2)).
  rewrite /saved -/l -/P -/σ1 -/σ2.
  destruct (decide (P = ∅)) as [HP|HP].
  - apply no_keys_iff in HP as ->. done.
  - assert ((length (Object_keys P) =? 0)%nat = false) as ->.
    { destruct (length (Object_keys P) =? 0)%nat eqn:E; [|done].
      by apply no_keys_iff in E. }
    rewrite /= bind_run (bind_ok _ _ _ _ _ (read_handle_run _ _ _ Hh2)).
    rewrite /DocRef_set /= !bind_run /=.
    rewrite bind_run /gets /=.
    by destruct (written _ P m).
Qed.

Lemma FireDoc_save_run σ this h (o : Obj) opt :
  handles σ !! this = Some h →
  objects σ !! docFields h = Some o →
  FireDoc_save this opt σ
  = saved σ this h o (onlyChanges_of opt) (onlyChanges_of opt).
Proof. apply save_run. Qed.

Lemma Main_save_run σ this h (o : Obj) opt :
  handles σ !! this = Some h →
  objects σ !! docFields h = Some o →
  Main_save this opt σ = saved σ this h o (onlyChanges_of opt) true.
Proof. apply save_run. Qed.

(** C6: on every handle, [getDocDataForSaveOperation(true)] returns a new
    object whose keys are exactly the names that occur in the changed keys
    and are keys of the fields, each with its current value in the fields and
    none twice; [getDocDataForSaveOperation(false)], and the call without
    argument, return a new object with all of the fields, distinct from the
    fields object itself. *)
Theorem C6_getDocDataForSaveOperation σ this h (o : Obj) :
  handles σ !! this = Some h →
  objects σ !! docFields h = Some o →
  let l := fresh (dom (objects σ)) in
  ((l ∉ dom (objects σ)) ∧ l ≠ docFields h ∧
   (∃ payload : Obj,
       getDocDataForSaveOperation this (Some true) σ
         = (with_objects <[l := payload]> σ, Ok l) ∧
       (∀ key, key ∈ Object_keys payload ↔
                 key ∈ docFieldKeysChanged h ∧ key ∈ Object_keys o) ∧
       (∀ key, key ∈ Object_keys payload → payload !! key = o !! key) ∧
       NoDup (Object_keys payload)) ∧
   getDocDataForSaveOperation this (Some false) σ
     = (with_objects <[l := o]> σ, Ok l) ∧
   getDocDataForSaveOperation this None σ
     = (with_objects <[l := o]> σ, Ok l)).
Proof.
  intros Hh Ho l.
  assert (l ∉ dom (objects σ)) as Hl by apply is_fresh.
  split; [done|]. split.
  { intros E. apply Hl. rewrite E. apply elem_of_dom. eauto. }
  split; [|split].
  - exists (pick o (docFieldKeysChanged h) ∅).
    split; [by apply (getDocDataForSaveOperation_run _ _ _ _ true)|].
    split; [|split].
    + intros key. rewrite !elem_of_Object_keys lookup_pick.
      destruct (decide (key ∈ docFieldKeysChanged h)) as [Hin|Hnin].
      * destruct (o !! key) eqn:E; rewrite ?lookup_empty; split;
          try done; try (intros [_ [? ?]]; done); intros [? ?]; done.
      * rewrite lookup_empty. split; [by intros [? ?]|by intros [? _]].
    + intros key. rewrite elem_of_Object_keys lookup_pick.
      destruct (decide (key ∈ docFieldKeysChanged h)).
      * by destruct (o !! key).
      * rewrite lookup_empty. by intros [? ?].
    + apply NoDup_Object_keys.
  - exact (getDocDataForSaveOperation_run σ this h o false Hh Ho).
  - exact (getDocDataForSaveOperation_run σ this h o false Hh Ho).
Qed.

Lemma C6_witness :
  let l := fresh (dom (objects example_state1)) in
  ((l ∉ dom (objects example_state1)) ∧ l ≠ docFields example_handle ∧
   (∃ payload : Obj,
       getDocDataForSaveOperation 1%positive (Some true) example_state1
         = (with_objects <[l := payload]> example_state1, Ok l) ∧
       (∀ key, key ∈ Object_keys payload ↔
                 key ∈ docFieldKeysChanged example_handle ∧
                 key ∈ Object_keys example_fields) ∧
       (∀ key, key ∈ Object_keys payload → payload !! key = example_fields !! key) ∧
       NoDup (Object_keys payload)) ∧
   getDocDataForSaveOperation 1%positive (Some false) example_state1
     = (with_objects <[l := example_fields]> example_state1, Ok l) ∧
   getDocDataForSaveOperation 1%positive None example_state1
     = (with_objects <[l := example_fields]> example_state1, Ok l)).
Proof.
  apply (C6_getDocDataForSaveOperation example_state1 1%positive
           example_handle example_fields); reflexivity.
Defined.

(** ** [setField] and [getField] *)

Lemma setField_run σ this h (o : Obj) fieldName v :
  handles σ !! this = Some h →
  objects σ !! docFields h = Some o →
  setField this fieldName v σ
  = (with_handles
       <[this := set_docFieldKeysChanged (docFieldKeysChanged h ++ [fieldName]) h]>
       (with_objects
          <[docFields h := <[fieldName := if is_undefined v then VDelete else v]> o]>
          σ),
     Ok this).
Proof.
  intros Hh Ho. rewrite /setField.
  rewrite (bind_ok _ _ _ _ _ (read_handle_run _ _ _ Hh)).
  rewrite bind_run (set_prop_run _ _ _ _ _ Ho).
  set (σ1 := with_objects _ σ).
  assert (handles σ1 !! this = Some h) as Hh1 by done.
  rewrite (bind_ok _ _ _ _ _ (read_handle_run _ _ _ Hh1)).
  by rewrite bind_run (write_handle_run _ _ _ _ Hh1).
Qed.

Lemma getField_run toDate σ this h (o : Obj) fieldName :
  handles σ !! this = Some h →
  objects σ !! docFields h = Some o →
  getField toDate this fieldName σ
  = (σ, Ok (normalized toDate (prop_read o fieldName))).
Proof.
  intros Hh Ho. rewrite /getField.
  rewrite (bind_ok _ _ _ _ _ (read_handle_run _ _ _ Hh)).
  rewrite (bind_ok _ _ _ _ _ (read_object_run _ _ _ Ho)).
  by destruct (prop_read o fieldName).
Qed.

Lemma payload_lookup_changed h (o : Obj) key :
  key ∈ docFieldKeysChanged h →
  payload_of true h o !! key = o !! key.
Proof.
  intros Hin. rewrite /payload_of lookup_pick decide_True; [done|].
  by destruct (o !! key).
Qed.

(** C7: on every handle, [setField(name, value)] stores the deletion marker
    under [name] when [value] is [undefined], and [value] otherwise, keeping
    the key; it appends [name] to the changed keys whatever the value and
    whatever the keys already recorded; it calls no collaborator.  The
    payload of the [save()] that follows holds the stored value under
    [name], hence the deletion marker when [value] was [undefined]. *)
Theorem C7_setField σ this h (o : Obj) fieldName v :
  handles σ !! this = Some h →
  objects σ !! docFields h = Some o →
  ∃ σ',
    setField this fieldName v σ = (σ', Ok this) ∧
    handles σ' !! this
      = Some (set_docFieldKeysChanged (docFieldKeysChanged h ++ [fieldName]) h) ∧
    objects σ' !! docFields h
      = Some (<[fieldName := if is_undefined v then VDelete else v]> o) ∧
    remote σ' = remote σ ∧ calls σ' = calls σ ∧
    ∃ σs (payload : Obj),
      FireDoc_save this None σ' = (σs, Ok this) ∧
      calls σs = (calls σ ++ [CallSet (ref_path (docRef h)) payload true])%list ∧
      payload !! fieldName = Some (if is_undefined v then VDelete else v).
Proof.
  intros Hh Ho. eexists. split; [by apply setField_run|].
  set (h' := set_docFieldKeysChanged _ h).
  set (o' := <[fieldName := _]> o).
  set (σ' := with_handles _ _).
  assert (handles σ' !! this = Some h') as Hh'.
  { rewrite /σ' /=. by rewrite lookup_insert_eq. }
  assert (objects σ' !! docFields h' = Some o') as Ho'.
  { rewrite /σ' /=. by rewrite lookup_insert_eq. }
  do 4 (split; [done|]).
  assert (payload_of true h' o' !! fieldName
          = Some (if is_undefined v then VDelete else v)) as HP.
  { rewrite payload_lookup_changed.
    - rewrite /h' /=. apply elem_of_app. right. apply list_elem_of_here.
    - by rewrite /o' lookup_insert_eq. }
  rewrite (FireDoc_save_run _ _ _ _ None Hh' Ho') /saved.
  cbv zeta. rewrite decide_False.
  { intros E. by rewrite E lookup_empty in HP. }
  eexists _, (payload_of true h' o'). by split.
Qed.

Lemma C7_witness :
  ∃ σ',
    setField 1%positive "t" VUndefined example_state1 = (σ', Ok 1%positive) ∧
    handles σ' !! 1%positive
      = Some (set_docFieldKeysChanged ["n"; "t"] example_handle) ∧
    objects σ' !! 1%positive = Some (<["t" := VDelete]> example_fields) ∧
    remote σ' = remote example_state1 ∧ calls σ' = calls example_state1 ∧
    ∃ σs (payload : Obj),
      FireDoc_save 1%positive None σ' = (σs, Ok 1%positive) ∧
      calls σs = [CallSet "users/a" payload true] ∧
      payload !! "t" = Some VDelete.
Proof.
  apply (C7_setField example_state1 1%positive example_handle example_fields
           "t" VUndefined); reflexivity.
Defined.

(** C8 fails for the absent value: after [setField(k, undefined)],
    [getField(k)] answers the deletion marker, which is neither [undefined]
    nor a timestamp. *)
Lemma C8_counterexample :
  ∃ σ' r,
    setField 1%positive "n" VUndefined example_state1 = (σ', Ok 1%positive) ∧
    getField (λ seconds _, seconds * 1000)%Z 1%positive "n" σ' = (σ', Ok r) ∧
    r = VDelete ∧ r ≠ VUndefined ∧ is_Timestamp VUndefined = false.
Proof. do 2 eexists. repeat split; [vm_compute; reflexivity|done]. Qed.

(** C8, amended: on every handle, [setField(k, v)] followed by
    [getField(k)] answers [v], except that a native timestamp comes back as
    its date and [undefined] comes back as the deletion marker. *)
Theorem C8_setField_getField toDate σ this h (o : Obj) fieldName v :
  handles σ !! this = Some h →
  objects σ !! docFields h = Some o →
  ∃ σ',
    setField this fieldName v σ = (σ', Ok this) ∧
    getField toDate this fieldName σ'
      = (σ', Ok match v with
                | VTimestamp seconds nanoseconds =>
                    VDate (toDate seconds nanoseconds)
                | VUndefined => VDelete
                | _ => v
                end).
Proof.
  intros Hh Ho. eexists. split; [by apply setField_run|].
  set (h' := set_docFieldKeysChanged _ h).
  set (o' := <[fieldName := _]> o).
  set (σ' := with_handles _ _).
  assert (handles σ' !! this = Some h') as Hh'.
  { rewrite /σ' /=. by rewrite lookup_insert_eq. }
  assert (objects σ' !! docFields h' = Some o') as Ho'.
  { rewrite /σ' /=. by rewrite lookup_insert_eq. }
  rewrite (getField_run toDate _ _ _ _ fieldName Hh' Ho').
  rewrite /prop_read /o' lookup_insert_eq /=. by destruct v.
Qed.

Lemma C8_witness :
  ∃ σ',
    setField 1%positive "when" (VTimestamp 3 500000000) example_state1
      = (σ', Ok 1%positive) ∧
    getField (λ seconds nanoseconds, seconds * 1000 + nanoseconds `div` 1000000)%Z
             1%positive "when" σ'
      = (σ', Ok (VDate 3500)).
Proof.
  apply (C8_setField_getField
           (λ seconds nanoseconds, seconds * 1000 + nanoseconds `div` 1000000)%Z
           example_state1 1%positive example_handle example_fields
           "when" (VTimestamp 3 500000000)); reflexivity.
Defined.

(** C9 fails for [getAllFields] and [getDocDataForSaveOperation]: both hand
    out the native timestamp stored under ["t"]. *)
Lemma C9_counterexample :
  ∃ l (o : Obj) σg lg (payload : Obj),
    getAllFields 1%positive example_state1 = (example_state1, Ok l) ∧
    objects example_state1 !! l = Some o ∧
    o !! "t" = Some (VTimestamp 9 0) ∧
    getDocDataForSaveOperation 1%positive (Some false) example_state1
      = (σg, Ok lg) ∧
    objects σg !! lg = Some payload ∧
    payload !! "t" = Some (VTimestamp 9 0).
Proof. do 5 eexists. repeat split; vm_compute; reflexivity. Qed.

(** C9, amended: [getField] is the one read operation that normalizes.  On
    every handle, [getField(name)] never answers a native timestamp: a
    timestamp stored directly under [name] comes back as its date, any other
    stored value as it is (a timestamp inside an array is not converted).
    [getAllFields] answers the fields object itself and
    [getDocDataForSaveOperation] copies the stored values unchanged, so both
    hand out native timestamps as stored. *)
Theorem C9_only_getField_normalizes toDate σ this h (o : Obj) fieldName :
  handles σ !! this = Some h →
  objects σ !! docFields h = Some o →
  (∃ v, getField toDate this fieldName σ = (σ, Ok v) ∧
        is_Timestamp v = false ∧
        v = normalized toDate (prop_read o fieldName)) ∧
  getAllFields this σ = (σ, Ok (docFields h)) ∧
  (∃ σ' l, getDocDataForSaveOperation this (Some false) σ = (σ', Ok l) ∧
           objects σ' !! l = Some o) ∧
  (∃ σ' l (payload : Obj),
      getDocDataForSaveOperation this (Some true) σ = (σ', Ok l) ∧
      objects σ' !! l = Some payload ∧
      ∀ key, key ∈ docFieldKeysChanged h → payload !! key = o !! key).
Proof.
  intros Hh Ho. split; [|split; [|split]].
  - eexists. split; [by apply (getField_run toDate σ this h o)|]. split; [|done].
    by destruct (prop_read o fieldName).
  - by rewrite /getAllFields (bind_ok _ _ _ _ _ (read_handle_run _ _ _ Hh)).
  - do 2 eexists. split; [by apply (getDocDataForSaveOperation_run σ this h o false)|].
    simpl. by rewrite lookup_insert_eq.
  - do 3 eexists. split; [by apply (getDocDataForSaveOperation_run σ this h o true)|].
    split; [simpl; by rewrite lookup_insert_eq|].
    intros key. apply payload_lookup_changed.
Qed.

Lemma C9_witness :
  (∃ v, getField (λ seconds _, seconds * 1000)%Z 1%positive "t" example_state1
          = (example_state1, Ok v) ∧
        is_Timestamp v = false ∧
        v = normalized (λ seconds _, seconds * 1000)%Z
              (prop_read example_fields "t")) ∧
  getAllFields 1%positive example_state1
    = (example_state1, Ok (docFields example_handle)) ∧
  (∃ σ' l, getDocDataForSaveOperation 1%positive (Some false) example_state1
             = (σ', Ok l) ∧
           objects σ' !! l = Some example_fields) ∧
  (∃ σ' l (payload : Obj),
      getDocDataForSaveOperation 1%positive (Some true) example_state1
        = (σ', Ok l) ∧
      objects σ' !! l = Some payload ∧
      ∀ key, key ∈ docFieldKeysChanged example_handle →
             payload !! key = example_fields !! key).
Proof.
  apply (C9_only_getField_normalizes (λ seconds _, seconds * 1000)%Z
           example_state1 1%positive example_handle example_fields "t");
    reflexivity.
Defined.

Lemma saved_clears σ this h (o : Obj) b m :
  ∃ σ' r,
    saved σ this h o b m = (σ', r) ∧
    handles σ' !! this = Some (set_docFieldKeysChanged [] h) ∧
    calls σ' = (calls σ ++
      (if decide (payload_of b h o = ∅) then []
       else [CallSet (ref_path (docRef h)) (payload_of b h o) m]))%list ∧
    (payload_of b h o = ∅ → remote σ' = remote σ ∧ r = Ok this).
Proof.
  rewrite /saved. cbv zeta.
  destruct (decide (payload_of b h o = ∅)) as [E|E].
  - do 2 eexists. split; [done|]. simpl.
    rewrite lookup_insert_eq app_nil_r. done.
  - destruct (written _ _ m); do 2 eexists; (split; [done|]); simpl;
      rewrite lookup_insert_eq; done.
Qed.

(** C5: on every handle and for every argument of [save], in both variants
    of the class, [save] leaves the handle with no changed keys, also when
    nothing is written, and the collaborator receives one [set] call, with
    the payload computed by [getDocDataForSaveOperation] for that mode, if
    that payload is not empty, and no call at all if it is empty. *)
Theorem C5_save σ this h (o : Obj) opt :
  handles σ !! this = Some h →
  objects σ !! docFields h = Some o →
  ∃ σg l (payload : Obj),
    getDocDataForSaveOperation this (Some (onlyChanges_of opt)) σ = (σg, Ok l) ∧
    objects σg !! l = Some payload ∧
    clears_and_writes_iff_nonempty FireDoc_save σ this h opt payload ∧
    clears_and_writes_iff_nonempty Main_save σ this h opt payload.
Proof.
  intros Hh Ho. eexists _, _, (payload_of (onlyChanges_of opt) h o).
  split; [by apply getDocDataForSaveOperation_run|].
  split; [simpl; by rewrite lookup_insert_eq|].
  rewrite /clears_and_writes_iff_nonempty.
  rewrite (FireDoc_save_run _ _ _ _ opt Hh Ho) (Main_save_run _ _ _ _ opt Hh Ho).
  split.
  - destruct (saved_clears σ this h o (onlyChanges_of opt) (onlyChanges_of opt))
      as (σ' & r & ? & ? & ? & ?). by exists σ', r, (onlyChanges_of opt).
  - destruct (saved_clears σ this h o (onlyChanges_of opt) true)
      as (σ' & r & ? & ? & ? & ?). by exists σ', r, true.
Qed.

Lemma C5_witness :
  ∃ σg l (payload : Obj),
    getDocDataForSaveOperation 1%positive (Some true) example_state1 = (σg, Ok l) ∧
    objects σg !! l = Some payload ∧
    clears_and_writes_iff_nonempty FireDoc_save example_state1 1%positive
      example_handle (Some OptChanges) payload ∧
    clears_and_writes_iff_nonempty Main_save example_state1 1%positive
      example_handle (Some OptChanges) payload.
Proof.
  apply (C5_save example_state1 1%positive example_handle example_fields
           (Some OptChanges)); reflexivity.
Defined.





(** ** [load] *)

Lemma load_missing σ this h :
  handles σ !! this = Some h →
  remote σ !! ref_path (docRef h) = None →
  load this σ
  = (log_call (CallGet (ref_path (docRef h))) σ, Throw (not_found (docRefId h))).
Proof.
  intros Hh Hr. rewrite /load.
  rewrite (bind_ok _ _ _ _ _ (read_handle_run _ _ _ Hh)).
  rewrite /DocRef_get !bind_run /= /gets /= Hr /= /get_id.
  set (σ1 := log_call _ σ).
  assert (handles σ1 !! this = Some h) as Hh1 by done.
  by rewrite !bind_run (read_handle_run _ _ _ Hh1).
Qed.

Lemma load_found σ this h (data : Obj) :
  handles σ !! this = Some h →
  remote σ !! ref_path (docRef h) = Some data →
  load this σ
  = (with_handles
       <[this := set_docFields (fresh (dom (objects σ)))
                   (set_docFieldKeysChanged [] h)]>
       (with_objects <[fresh (dom (objects σ)) := data]>
          (log_call (CallGet (ref_path (docRef h))) σ)),
     Ok this).
Proof.
  intros Hh Hr. rewrite /load.
  rewrite (bind_ok _ _ _ _ _ (read_handle_run _ _ _ Hh)).
  rewrite /DocRef_get !bind_run /= /gets /= Hr /=.
  rewrite 2!bind_run /new_object. cbv beta iota zeta.
  set (σ1 := with_objects _ _).
  assert (handles σ1 !! this = Some h) as Hh1 by done.
  rewrite bind_run (resetDocFieldKeysChanged_run _ _ _ Hh1).
  set (σ2 := with_handles _ σ1).
  assert (handles σ2 !! this = Some (set_docFieldKeysChanged [] h)) as Hh2.
  { rewrite /σ2 /=. by rewrite lookup_insert_eq. }
  rewrite (bind_ok _ _ _ _ _ (read_handle_run _ _ _ Hh2)).
  rewrite (write_handle_run _ _ _ _ Hh2) /mret /M_ret.
  f_equal. apply State_eq; try done. simpl. by rewrite insert_insert_eq.
Qed.

(** C4: for every handle, [load()] throws the message ["Document <id> does
    not exist"], with the id of the handle, exactly when the collaborator
    holds no document at the handle's reference.  When it holds one, [load]
    returns the handle itself; the handle then points to a new fields object
    holding exactly the fetched data, whatever its fields were before, and
    its changed keys are empty. *)
Theorem C4_load σ this h :
  handles σ !! this = Some h →
  ((∃ σ', load this σ
          = (σ', Throw (ThrownString
                          ("Document " +:+ docRefId h +:+ " does not exist"))))
   ↔ remote σ !! ref_path (docRef h) = None) ∧
  ((∃ σ' e, load this σ = (σ', Throw e))
   ↔ remote σ !! ref_path (docRef h) = None) ∧
  (∀ data : Obj, remote σ !! ref_path (docRef h) = Some data →
     ∃ σ' l,
       load this σ = (σ', Ok this) ∧
       (l ∉ dom (objects σ)) ∧
       objects σ' = <[l := data]> (objects σ) ∧
       handles σ'
         = <[this := set_docFields l (set_docFieldKeysChanged [] h)]> (handles σ) ∧
       remote σ' = remote σ).
Proof.
  intros Hh.
  destruct (remote σ !! ref_path (docRef h)) as [data|] eqn:Hr.
  - rewrite (load_found _ _ _ _ Hh Hr). split; [|split].
    + split; [by intros [? ?]|done].
    + split; [by intros (? & ? & ?)|done].
    + intros ? [= <-]. do 2 eexists. split; [done|].
      split; [apply is_fresh|done].
  - rewrite (load_missing _ _ _ Hh Hr). split; [|split].
    + split; [done|]. intros _. by eexists.
    + split; [done|]. intros _. by do 2 eexists.
    + done.
Qed.

Lemma C4_witness :
  ((∃ σ', load 1%positive example_state1
          = (σ', Throw (ThrownString "Document a does not exist")))
   ↔ remote example_state1 !! "users/a" = None) ∧
  ((∃ σ' e, load 1%positive example_state1 = (σ', Throw e))
   ↔ remote example_state1 !! "users/a" = None) ∧
  (∀ data : Obj, remote example_state1 !! "users/a" = Some data →
     ∃ σ' l,
       load 1%positive example_state1 = (σ', Ok 1%positive) ∧
       (l ∉ dom (objects example_state1)) ∧
       objects σ' = <[l := data]> (objects example_state1) ∧
       handles σ'
         = <[1%positive := set_docFields l (set_docFieldKeysChanged [] example_handle)]>
             (handles example_state1) ∧
       remote σ' = remote example_state1).
Proof.
  apply (C4_load example_state1 1%positive example_handle). reflexivity.
Defined.

(** [delete] removes the remote document and leaves the handle and its
    fields as they were. *)
Lemma delete_doc_run σ this h :
  handles σ !! this = Some h →
  delete_doc this σ
  = (with_remote (delete (ref_path (docRef h)))
       (log_call (CallDelete (ref_path (docRef h))) σ),
     Ok this).
Proof.
  intros Hh. rewrite /delete_doc.
  by rewrite (bind_ok _ _ _ _ _ (read_handle_run _ _ _ Hh)).
Qed.

(** ** The constructors *)

(** The reference of a handle built with an id is at its document path. *)
Lemma getDocumentPath_constructed σ i path :
  i ≠ "" →
  ∃ σ' this h,
    FireDoc_constructor (Some i) None path σ = (σ', Ok this) ∧
    handles σ' !! this = Some h ∧
    getDocumentPath this σ' = (σ', Ok (ref_path (docRef h))) ∧
    docRefId h = i.
Proof.
  intros Hi. rewrite /FireDoc_constructor bind_run /new_object /truthy.
  apply String.eqb_neq in Hi. rewrite Hi /=.
  do 3 eexists. split; [done|]. simpl. rewrite lookup_insert_eq.
  split; [done|]. split; [|done].
  set (σ' := with_handles _ _).
  assert (handles σ' !! fresh (dom (handles σ))
          = Some {| collectionPath := path; docRefId := i;
                    docFields := fresh (dom (objects σ));
                    docFieldKeysChanged := [];
                    docRef := Firestore_doc (resolve path +:+ "/" +:+ i);
                    isNewDocument := false |}) as Hh.
  { rewrite /σ' /=. by rewrite lookup_insert_eq. }
  rewrite /getDocumentPath /getCollectionPath /get_id.
  rewrite bind_run (bind_ok _ _ _ _ _ (read_handle_run _ _ _ Hh)).
  rewrite /mret /M_ret bind_run (bind_ok _ _ _ _ _ (read_handle_run _ _ _ Hh)).
  done.
Qed.

(** C10: constructing a handle with the empty string as id is the same
    computation as constructing it without an id, in both variants of the
    class.  The handle is not bound to the path [collectionPath + "/"]: it
    takes the next generated id, its reference lies under the collection
    path with that id, one id is consumed; [Main] sets [isNewDocument]. *)
Theorem C10_empty_id_is_no_id (fields : option loc) (path : MaybeCallable) σ :
  FireDoc_constructor (Some "") fields path σ
    = FireDoc_constructor None fields path σ ∧
  Main_constructor (Some "") fields path σ
    = Main_constructor None fields path σ ∧
  let i := autoIds σ (autoIdCount σ) in
  (∃ σ' this h,
      FireDoc_constructor (Some "") fields path σ = (σ', Ok this) ∧
      handles σ' !! this = Some h ∧
      docRefId h = i ∧
      docRef h = {| ref_path := resolve path +:+ "/" +:+ i; ref_id := i |} ∧
      docFieldKeysChanged h = [] ∧
      autoIdCount σ' = S (autoIdCount σ) ∧
      calls σ' = calls σ) ∧
  (∃ σ' this h,
      Main_constructor (Some "") fields path σ = (σ', Ok this) ∧
      handles σ' !! this = Some h ∧
      docRefId h = i ∧
      docRef h = {| ref_path := resolve path +:+ "/" +:+ i; ref_id := i |} ∧
      isNewDocument h = true ∧
      autoIdCount σ' = S (autoIdCount σ) ∧
      calls σ' = calls σ).
Proof.
  split; [done|]. split; [done|]. split.
  - rewrite /FireDoc_constructor bind_run.
    destruct fields as [l|]; simpl;
      do 3 eexists; (split; [done|]); simpl; by rewrite lookup_insert_eq.
  - rewrite /Main_constructor bind_run.
    destruct fields as [l|]; simpl;
      do 3 eexists; (split; [done|]); simpl; by rewrite lookup_insert_eq.
Qed.

(** ** The scan loop of [withRawFilter] *)

Lemma log_calls_app a b σ : log_calls b (log_calls a σ) = log_calls (a ++ b) σ.
Proof. apply State_eq; try done. simpl. by rewrite app_assoc. Qed.

Lemma log_calls_nil σ : log_calls [] σ = σ.
Proof. apply State_eq; try done. simpl. by rewrite app_nil_r. Qed.

Lemma Query_get_run collection offset limit σ :
  Query_get collection offset limit σ
  = (log_calls [CallQuery collection offset limit] σ,
     Ok (take limit (drop offset (collection_docs (remote σ) collection)))).
Proof. done. Qed.

Lemma window_matches_nonempty filter docs j :
  window_matches filter docs j ≠ [] → j * searchPerPage < length docs.
Proof.
  intros Hne. destruct (decide (j * searchPerPage < length docs)) as [|Hge]; [done|].
  exfalso. apply Hne. rewrite /window_matches /window drop_ge; [lia|].
  by rewrite take_nil.
Qed.

Lemma scan_spec fuel collection filter σ : ∀ searchPage found,
  length (collection_docs (remote σ) collection) - searchPage * searchPerPage < fuel →
  ∃ k,
    window_matches filter (collection_docs (remote σ) collection) (searchPage + k) = [] ∧
    (∀ j, j < k →
       window_matches filter (collection_docs (remote σ) collection) (searchPage + j) ≠ []) ∧
    scan fuel collection filter searchPage found σ
    = (log_calls (queries collection searchPage (S k)) σ,
       Ok (found ++ scanned filter (collection_docs (remote σ) collection) searchPage k)).
Proof.
  set (docs := collection_docs (remote σ) collection).
  assert (∀ cs, ∀ searchPage found,
    length docs - searchPage * searchPerPage < fuel →
    ∃ k,
      window_matches filter docs (searchPage + k) = [] ∧
      (∀ j, j < k → window_matches filter docs (searchPage + j) ≠ []) ∧
      scan fuel collection filter searchPage found (log_calls cs σ)
      = (log_calls (cs ++ queries collection searchPage (S k)) σ,
         Ok (found ++ scanned filter docs searchPage k))) as Hgen.
  { induction fuel as [|fuel IH]; intros cs searchPage found Hfuel; [lia|].
    cbn [scan]. rewrite bind_run Query_get_run log_calls_app.
    change (take searchPerPage (drop (searchPage * searchPerPage)
              (collection_docs (remote (log_calls cs σ)) collection)))
      with (window docs searchPage).
    change ((List.filter (λ doc, filter doc.2 doc.1) (window docs searchPage)).*1)
      with (window_matches filter docs searchPage).
    destruct (window_matches filter docs searchPage) as [|i ids] eqn:Ew.
    - exists 0. rewrite Nat.add_0_r. split; [done|]. split; [lia|].
      by rewrite /= app_nil_r.
    - assert (searchPage * searchPerPage < length docs) as Hlt.
      { apply (window_matches_nonempty filter). by rewrite Ew. }
      destruct (IH (cs ++ [CallQuery collection (searchPage * searchPerPage)
                             searchPerPage])
                   (S searchPage) (found ++ i :: ids)) as (k & Hz & Hnz & Hrun).
      { rewrite /searchPerPage in Hlt Hfuel |- *. lia. }
      exists (S k). split; [|split].
      + by rewrite -Nat.add_succ_comm.
      + intros [|j] Hj.
        * by rewrite Nat.add_0_r Ew.
        * rewrite -Nat.add_succ_comm. apply Hnz. lia.
      + rewrite /= Hrun -!app_assoc /queries /scanned /= Ew. done. }
  intros searchPage found Hfuel.
  destruct (Hgen [] searchPage found Hfuel) as (k & ? & ? & Hrun).
  exists k. rewrite log_calls_nil in Hrun. by rewrite Hrun.
Qed.

(** ** Documents of a collection *)

Lemma append_assoc (a b c : string) : (a +:+ b) +:+ c = a +:+ b +:+ c.
Proof.
  induction a as [|x a IH]; [done|].
  change (String x ((a +:+ b) +:+ c) = String x (a +:+ b +:+ c)).
  by rewrite IH.
Qed.

Lemma strip_prefix_Some p s r : strip_prefix p s = Some r → s = p +:+ r.
Proof.
  revert s. induction p as [|a p IH]; intros s; simpl.
  - by intros [= ->].
  - destruct s as [|b s]; [done|].
    destruct (Ascii.eqb a b) eqn:E; [|done].
    apply Ascii.eqb_eq in E as ->. intros H%IH. by rewrite H.
Qed.

Lemma doc_id_in_Some collection path i :
  doc_id_in collection path = Some i →
  path = collection +:+ "/" +:+ i ∧ i ≠ "".
Proof.
  rewrite /doc_id_in. destruct (strip_prefix _ path) as [r|] eqn:E; [|done].
  apply strip_prefix_Some in E. rewrite append_assoc in E.
  destruct (String.eqb r "") eqn:Er; [done|].
  destruct (has_slash r); [done|]. simpl. intros [= <-].
  split; [done|]. by apply String.eqb_neq.
Qed.

Lemma elem_of_collection_docs (r : gmap string Obj) collection i (data : Obj) :
  (i, data) ∈ collection_docs r collection →
  r !! (collection +:+ "/" +:+ i) = Some data ∧ i ≠ "".
Proof.
  rewrite /collection_docs list_elem_of_omap.
  intros ([path d] & Hin & Hf). simpl in Hf.
  destruct (doc_id_in collection path) as [i'|] eqn:E; [|done].
  injection Hf as -> ->. apply doc_id_in_Some in E as [-> ?].
  split; [|done]. by apply elem_of_map_to_list.
Qed.

Lemma collection_ids (r : gmap string Obj) collection :
  (collection_docs r collection).*1 = omap (doc_id_in collection) (map_to_list r).*1.
Proof.
  rewrite /collection_docs. induction (map_to_list r) as [|[path d] l IH]; [done|].
  csimpl. destruct (doc_id_in collection path); csimpl; by rewrite IH.
Qed.

Lemma NoDup_omap_inj {A B} (f : A → option B) (l : list A) :
  (∀ x y z, f x = Some z → f y = Some z → x = y) →
  NoDup l → NoDup (omap f l).
Proof.
  intros Hinj. induction 1 as [|x l Hx Hl IH]; csimpl; [constructor|].
  destruct (f x) as [z|] eqn:E; [|done].
  constructor; [|done]. rewrite list_elem_of_omap.
  intros (y & Hy & Ey). by rewrite (Hinj _ _ _ E Ey) in Hx.
Qed.

Lemma NoDup_collection_ids (r : gmap string Obj) collection :
  NoDup (collection_docs r collection).*1.
Proof.
  rewrite collection_ids. apply NoDup_omap_inj; [|apply NoDup_fst_map_to_list].
  intros x y z [-> _]%doc_id_in_Some [-> _]%doc_id_in_Some. done.
Qed.

Lemma elem_of_window_matches filter docs j i :
  i ∈ window_matches filter docs j →
  ∃ (data : Obj) q,
    docs !! q = Some (i, data) ∧ j * searchPerPage ≤ q < S j * searchPerPage.
Proof.
  rewrite /window_matches list_elem_of_fmap.
  intros ([i' data] & -> & Hin). simpl.
  apply list_elem_of_In, filter_In in Hin as [Hin%list_elem_of_In _].
  apply elem_of_take in Hin as (n & Hn & Hlt). rewrite lookup_drop in Hn.
  exists data, (j * searchPerPage + n). split; [done|].
  rewrite /searchPerPage in Hlt |- *. lia.
Qed.

Lemma elem_of_scanned filter docs from k i :
  i ∈ scanned filter docs from k →
  ∃ (data : Obj) q,
    docs !! q = Some (i, data) ∧
    from * searchPerPage ≤ q < (from + k) * searchPerPage.
Proof.
  rewrite /scanned list_elem_of_join.
  intros (l & Hi & Hl). apply list_elem_of_fmap in Hl as (j & -> & Hj).
  apply elem_of_seq in Hj.
  apply elem_of_window_matches in Hi as (data & q & Hq & Hb).
  exists data, q. split; [done|]. rewrite /searchPerPage in Hb |- *. lia.
Qed.

(** ** Building and loading the handles of the requested page *)

Lemma FireDoc_constructor_run σ i path :
  i ≠ "" →
  FireDoc_constructor (Some i) None path σ
  = (with_handles
       <[fresh (dom (handles σ)) :=
           {| collectionPath := path; docRefId := i;
              docFields := fresh (dom (objects σ)); docFieldKeysChanged := [];
              docRef := Firestore_doc (resolve path +:+ "/" +:+ i);
              isNewDocument := false |}]>
       (with_objects <[fresh (dom (objects σ)) := ∅]> σ),
     Ok (fresh (dom (handles σ)))).
Proof.
  intros Hi. rewrite /FireDoc_constructor bind_run /new_object /truthy.
  apply String.eqb_neq in Hi. by rewrite Hi.
Qed.

Lemma loaded_mono σ σ' path this i :
  handles σ ⊆ handles σ' → objects σ ⊆ objects σ' → remote σ' = remote σ →
  loaded σ path this i → loaded σ' path this i.
Proof.
  intros Hh Ho Hr (h & data & ? & ? & ? & ? & ? & ?).
  exists h, data. rewrite Hr. repeat split; try done.
  - by apply (lookup_weaken (handles σ)).
  - by apply (lookup_weaken (objects σ)).
Qed.

Lemma construct_load σ path i (data : Obj) :
  i ≠ "" →
  remote σ !! (resolve path +:+ "/" +:+ i) = Some data →
  ∃ σ' this,
    (this ← FireDoc_constructor (Some i) None path; load this) σ = (σ', Ok this) ∧
    handles σ ⊆ handles σ' ∧ objects σ ⊆ objects σ' ∧ remote σ' = remote σ ∧
    calls σ' = calls σ ++ [CallGet (resolve path +:+ "/" +:+ i)] ∧
    loaded σ' path this i.
Proof.
  intros Hi Hr.
  rewrite (bind_ok _ _ _ _ _ (FireDoc_constructor_run σ i path Hi)).
  set (this := fresh (dom (handles σ))). set (lo := fresh (dom (objects σ))).
  set (h0 := {| collectionPath := path; docRefId := i; docFields := lo;
                docFieldKeysChanged := [];
                docRef := Firestore_doc (resolve path +:+ "/" +:+ i);
                isNewDocument := false |}).
  set (σa := with_handles _ _).
  assert (handles σa !! this = Some h0) as Hh.
  { rewrite /σa /=. by rewrite lookup_insert_eq. }
  assert (remote σa !! ref_path (docRef h0) = Some data) as Hra by done.
  rewrite (load_found _ _ _ _ Hh Hra).
  set (ld := fresh (dom (objects σa))).
  assert (handles σ !! this = None) as Hthis by apply not_elem_of_dom, is_fresh.
  assert (objects σ !! lo = None) as Hlo by apply not_elem_of_dom, is_fresh.
  assert (objects σa !! ld = None) as Hld by apply not_elem_of_dom, is_fresh.
  do 2 eexists. split; [done|]. simpl. split; [|split; [|split; [done|split; [done|]]]].
  - rewrite insert_insert_eq. by apply insert_subseteq.
  - trans (objects σa); [by apply insert_subseteq|by apply insert_subseteq].
  - exists (set_docFields ld (set_docFieldKeysChanged [] h0)), data.
    simpl. rewrite !lookup_insert_eq. done.
Qed.

Lemma mapM_construct_load path : ∀ ids σ,
  (∀ i, i ∈ ids →
        i ≠ "" ∧ is_Some (remote σ !! (resolve path +:+ "/" +:+ i))) →
  ∃ σ' hs,
    mapM (λ i, this ← FireDoc_constructor (Some i) None path; load this) ids σ
      = (σ', Ok hs) ∧
    handles σ ⊆ handles σ' ∧ objects σ ⊆ objects σ' ∧ remote σ' = remote σ ∧
    calls σ' = calls σ ++ ((λ i, CallGet (resolve path +:+ "/" +:+ i)) <$> ids) ∧
    Forall2 (loaded σ' path) hs ids.
Proof.
  induction ids as [|i ids IH]; intros σ Hids.
  - exists σ, []. rewrite /= app_nil_r. by repeat split.
  - destruct (Hids i) as [Hi [data Hdata]]; [apply list_elem_of_here|].
    destruct (construct_load σ path i data Hi Hdata)
      as (σ1 & this & Hrun & Hh1 & Ho1 & Hr1 & Hc1 & Hl1).
    destruct (IH σ1) as (σ' & hs & Hrun' & Hh' & Ho' & Hr' & Hc' & Hl').
    { intros j Hj. rewrite Hr1. apply Hids. by apply list_elem_of_further. }
    exists σ', (this :: hs). split; [|split; [|split; [|split; [|split]]]].
    + cbn [mapM]. rewrite (bind_ok _ _ _ _ _ Hrun).
      by rewrite (bind_ok _ _ _ _ _ Hrun').
    + by trans (handles σ1).
    + by trans (objects σ1).
    + by rewrite Hr'.
    + by rewrite Hc' Hc1 -app_assoc.
    + constructor; [|done]. by apply (loaded_mono σ1).
Qed.

Lemma elem_of_Array_slice {A} (l : list A) start finish x :
  x ∈ Array_slice l start finish → x ∈ l.
Proof.
  rewrite /Array_slice. intros (n & Hn & _)%elem_of_take.
  rewrite lookup_drop in Hn. by apply list_elem_of_lookup_2 in Hn.
Qed.

(** ** Page arithmetic *)

Lemma Math_ceil_div_pos (a b : Z) :
  (0 ≤ a)%Z → (1 ≤ b)%Z →
  ∃ n, Math_ceil_div a b = Num n ∧ ((n - 1) * b < a ≤ n * b)%Z.
Proof.
  intros Ha Hb. rewrite /Math_ceil_div.
  assert ((b =? 0)%Z = false) as -> by lia.
  eexists. split; [done|].
  pose proof (Z.div_mod (- a) b) as Hdm.
  pose proof (Z.mod_pos_bound (- a) b) as Hmod. nia.
Qed.

Lemma Array_slice_page {A} (l : list A) (page perPage : Z) :
  (1 ≤ page)%Z → (1 ≤ perPage)%Z →
  Array_slice l (perPage * (page - 1)) (perPage * page)
  = take (Z.to_nat perPage) (drop (Z.to_nat ((page - 1) * perPage)) l).
Proof.
  intros Hpage Hper. rewrite /Array_slice /relative_index.
  set (len := Z.of_nat (length l)).
  assert ((perPage * (page - 1) <? 0)%Z = false) as -> by nia.
  assert ((perPage * page <? 0)%Z = false) as -> by nia.
  replace ((page - 1) * perPage)%Z with (perPage * (page - 1))%Z by lia.
  set (s := (perPage * (page - 1))%Z).
  assert (perPage * page = s + perPage)%Z as -> by (rewrite /s; lia).
  assert (0 ≤ s)%Z as Hs by (rewrite /s; nia).
  destruct (decide (len ≤ s)%Z) as [Hge|Hlt].
  - rewrite (drop_ge l (Z.to_nat s)); [rewrite /len in Hge; lia|].
    rewrite (drop_ge l (Z.to_nat (s `min` len))); [rewrite /len in Hge |- *; lia|].
    by rewrite !take_nil.
  - replace (s `min` len)%Z with s by lia.
    set (d := drop (Z.to_nat s) l).
    assert (length d = Z.to_nat (len - s)) as Hd.
    { rewrite /d length_drop /len. lia. }
    destruct (decide (s + perPage ≤ len)%Z).
    + f_equal. lia.
    + rewrite !take_ge; [lia..|done].
Qed.

Lemma withRawFilter_spec path fuel page perPage filter σ :
  length (collection_docs (remote σ) (resolve path)) < fuel →
  ∃ k σ' hs,
    window_matches filter (collection_docs (remote σ) (resolve path)) k = [] ∧
    (∀ j, j < k →
       window_matches filter (collection_docs (remote σ) (resolve path)) j ≠ []) ∧
    scan fuel (resolve path) filter 0 [] σ
      = (log_calls (queries (resolve path) 0 (S k)) σ,
         Ok (scanned filter (collection_docs (remote σ) (resolve path)) 0 k)) ∧
    withRawFilter path fuel page perPage filter σ
      = (σ', Ok (Math_ceil_div
                   (Z.of_nat (length (scanned filter
                      (collection_docs (remote σ) (resolve path)) 0 k))) perPage,
                 hs)) ∧
    remote σ' = remote σ ∧
    calls σ' = calls σ ++ queries (resolve path) 0 (S k) ++
      ((λ i, CallGet (resolve path +:+ "/" +:+ i)) <$>
         Array_slice (scanned filter (collection_docs (remote σ) (resolve path)) 0 k)
           (perPage * (page - 1)) (perPage * page)) ∧
    Forall2 (loaded σ' path) hs
      (Array_slice (scanned filter (collection_docs (remote σ) (resolve path)) 0 k)
         (perPage * (page - 1)) (perPage * page)).
Proof.
  intros Hfuel.
  set (docs := collection_docs (remote σ) (resolve path)) in *.
  destruct (scan_spec fuel (resolve path) filter σ 0 []) as (k & Hz & Hnz & Hscan).
  { rewrite -/docs. lia. }
  rewrite -/docs /= in Hz, Hnz, Hscan.
  set (found := scanned filter docs 0 k) in *.
  set (ids := Array_slice found (perPage * (page - 1)) (perPage * page)).
  set (σ1 := log_calls (queries (resolve path) 0 (S k)) σ) in *.
  destruct (mapM_construct_load path ids σ1)
    as (σ' & hs & Hrun & _ & _ & Hr & Hc & Hl).
  { intros i Hi%elem_of_Array_slice.
    apply elem_of_scanned in Hi as (data & q & Hq & _).
    apply list_elem_of_lookup_2, elem_of_collection_docs in Hq as [Hq ?].
    split; [done|]. by exists data. }
  exists k, σ', hs. split; [done|]. split; [done|]. split; [done|].
  split; [|split; [done|split; [|done]]].
  - rewrite /withRawFilter (bind_ok _ _ _ _ _ Hscan).
    by rewrite -/found -/ids (bind_ok _ _ _ _ _ Hrun).
  - by rewrite Hc /= -app_assoc.
Qed.

(** ** [withRawFilter] *)

(** C1: for every collection and filter, the scan stops at the first window
    [k] whose filtered ids are empty, whatever that window and the later ones
    hold: the windows before [k] all have matches, the accumulated list is
    the matches of the windows before [k] in order, the queries issued are
    those of windows [0] to [k], and the id of a document listed at or after
    the start of window [k] is neither in the accumulated list nor the id of
    a returned handle. *)
Theorem C1_scan_stops_at_first_empty_window path fuel page perPage filter σ :
  length (collection_docs (remote σ) (resolve path)) < fuel →
  ∃ k σ1 found σ' allPages hs,
    scan fuel (resolve path) filter 0 [] σ = (σ1, Ok found) ∧
    withRawFilter path fuel page perPage filter σ = (σ', Ok (allPages, hs)) ∧
    window_matches filter (collection_docs (remote σ) (resolve path)) k = [] ∧
    (∀ j, j < k →
       window_matches filter (collection_docs (remote σ) (resolve path)) j ≠ []) ∧
    found = scanned filter (collection_docs (remote σ) (resolve path)) 0 k ∧
    calls σ1 = calls σ ++ queries (resolve path) 0 (S k) ∧
    ∀ (q : nat) (i : string) (data : Obj),
      collection_docs (remote σ) (resolve path) !! q = Some (i, data) →
      (k * searchPerPage ≤ q)%nat →
      (i ∉ found) ∧
      ∀ this h, this ∈ hs → handles σ' !! this = Some h → docRefId h ≠ i.
Proof.
  intros Hfuel.
  destruct (withRawFilter_spec path fuel page perPage filter σ Hfuel)
    as (k & σ' & hs & Hz & Hnz & Hscan & Hrun & _ & _ & Hl).
  set (docs := collection_docs (remote σ) (resolve path)) in *.
  do 6 eexists. split; [exact Hscan|]. split; [exact Hrun|].
  do 4 (split; [done|]).
  intros q i data Hq Hge.
  assert (i ∉ scanned filter docs 0 k) as Hnot.
  { intros (data' & q' & Hq' & Hb)%elem_of_scanned.
    assert (q = q'); [|lia].
    apply (NoDup_lookup (docs.*1) q q' i).
    - apply NoDup_collection_ids.
    - by rewrite list_lookup_fmap Hq.
    - by rewrite list_lookup_fmap Hq'. }
  split; [done|]. intros this h Hin Hh Heq.
  apply list_elem_of_lookup_1 in Hin as [n Hn].
  destruct (Forall2_lookup_l _ _ _ _ _ Hl Hn) as (i' & Hi' & Hld).
  destruct Hld as (h' & d' & Hh' & Hid & _).
  rewrite Hh in Hh'. injection Hh' as <-.
  apply Hnot. rewrite -Heq Hid.
  eapply elem_of_Array_slice. by eapply list_elem_of_lookup_2.
Qed.

Lemma C1_witness :
  ∃ σ1 found σ' allPages hs,
    scan 260 "items" sparse_filter 0 [] big_state = (σ1, Ok found) ∧
    withRawFilter (Literal "items") 260 1 10 sparse_filter big_state
      = (σ', Ok (allPages, hs)) ∧
    (∃ data : Obj,
        collection_docs big_remote "items" !! 220%nat = Some ("206", data) ∧
        sparse_filter data "206" = true) ∧
    ("206" ∉ found) ∧
    ∀ this h, this ∈ hs → handles σ' !! this = Some h → docRefId h ≠ "206".
Proof.
  destruct (C1_scan_stops_at_first_empty_window (Literal "items") 260 1 10
              sparse_filter big_state)
    as (k & σ1 & found & σ' & allPages & hs & Hscan & Hrun & Hz & Hnz & Hf & Hc & Hlate).
  { vm_compute. lia. }
  assert (window_matches sparse_filter (collection_docs big_remote "items") 1 = [])
    as Hw1 by (vm_compute; reflexivity).
  assert (k ≤ 2)%nat as Hk.
  { destruct (decide (k ≤ 2)%nat) as [|Hgt]; [done|].
    exfalso. apply (Hnz 1); [lia|exact Hw1]. }
  exists σ1, found, σ', allPages, hs.
  split; [exact Hscan|]. split; [exact Hrun|].
  split.
  { exists {[ "n" := VNum 206 ]}. split; vm_compute; reflexivity. }
  apply (Hlate 220%nat "206" {[ "n" := VNum 206 ]}).
  - vm_compute; reflexivity.
  - rewrite /searchPerPage. lia.
Defined.

(** The scan of the example: the match in the third window is never seen. *)
Example sparse_scan :
  (scan 260 "items" sparse_filter 0 [] big_state).2 = Ok ["79"; "172"] ∧
  calls (scan 260 "items" sparse_filter 0 [] big_state).1
    = [CallQuery "items" 0 100; CallQuery "items" 100 100].
Proof. split; vm_compute; reflexivity. Qed.

(** C2: for every run of [withRawFilter] with [page >= 1] and
    [perPage >= 1], where [found] is the list accumulated by the scan:
    [allPages] is the ceiling of [length found / perPage]; the returned
    handles are, in order, loaded handles for the ids of [found] from
    position [(page - 1) * perPage], at most [perPage] of them, each
    fetched by one [get].  With five matches in the first window and none in
    the second, [perPage = 2] and [page = 2] give [allPages = 3] and the
    handles of the matches at positions 2 and 3.  With no match in the first
    window the result is [allPages = 0] and no handle, after one query. *)
Theorem C2_pagination path fuel page perPage filter σ :
  length (collection_docs (remote σ) (resolve path)) < fuel →
  (1 ≤ page)%Z →
  (1 ≤ perPage)%Z →
  ∃ σ1 found σ' n hs,
    scan fuel (resolve path) filter 0 [] σ = (σ1, Ok found) ∧
    withRawFilter path fuel page perPage filter σ = (σ', Ok (Num n, hs)) ∧
    ((n - 1) * perPage < Z.of_nat (length found) ≤ n * perPage)%Z ∧
    Forall2 (loaded σ' path) hs
      (take (Z.to_nat perPage) (drop (Z.to_nat ((page - 1) * perPage)) found)) ∧
    calls σ' = calls σ1 ++
      ((λ i, CallGet (resolve path +:+ "/" +:+ i)) <$>
         take (Z.to_nat perPage) (drop (Z.to_nat ((page - 1) * perPage)) found)) ∧
    (∀ m0 m1 m2 m3 m4,
       window_matches filter (collection_docs (remote σ) (resolve path)) 0
         = [m0; m1; m2; m3; m4] →
       window_matches filter (collection_docs (remote σ) (resolve path)) 1 = [] →
       page = 2%Z → perPage = 2%Z →
       found = [m0; m1; m2; m3; m4] ∧ n = 3%Z ∧
       ∃ h2 h3, hs = [h2; h3] ∧ loaded σ' path h2 m2 ∧ loaded σ' path h3 m3) ∧
    (window_matches filter (collection_docs (remote σ) (resolve path)) 0 = [] →
       found = [] ∧ n = 0%Z ∧ hs = [] ∧
       calls σ' = calls σ ++ [CallQuery (resolve path) 0 searchPerPage]).
Proof.
  intros Hfuel Hpage Hper.
  destruct (withRawFilter_spec path fuel page perPage filter σ Hfuel)
    as (k & σ' & hs & Hz & Hnz & Hscan & Hrun & _ & Hc & Hl).
  set (docs := collection_docs (remote σ) (resolve path)) in *.
  set (found := scanned filter docs 0 k) in *.
  rewrite (Array_slice_page _ _ _ Hpage Hper) in Hc Hl.
  destruct (Math_ceil_div_pos (Z.of_nat (length found)) perPage)
    as (n & Hn & Hbounds); [lia|done|].
  rewrite Hn in Hrun.
  exists (log_calls (queries (resolve path) 0 (S k)) σ), found, σ', n, hs.
  split; [done|]. split; [done|]. split; [done|]. split; [done|].
  split; [by rewrite Hc /= -app_assoc|]. split.
  - intros m0 m1 m2 m3 m4 Hw0 Hw1 -> ->.
    assert (k = 1) as Hk.
    { destruct k as [|[|k]]; [by rewrite Hw0 in Hz|done|].
      exfalso. apply (Hnz 1); [lia|done]. }
    assert (found = [m0; m1; m2; m3; m4]) as Hfound.
    { rewrite /found Hk /scanned /= Hw0. done. }
    rewrite Hfound /= in Hl, Hbounds. split; [done|]. split; [lia|].
    change (Z.to_nat 2) with 2 in Hl.
    change (Z.to_nat ((2 - 1) * 2)) with 2 in Hl. simpl in Hl.
    apply Forall2_cons_inv_r in Hl as (h2 & hs' & Hl2 & Hl & ->).
    apply Forall2_cons_inv_r in Hl as (h3 & hs'' & Hl3 & Hl & ->).
    apply Forall2_nil_inv_r in Hl as ->. by exists h2, h3.
  - intros Hw0.
    assert (k = 0) as Hk.
    { destruct k as [|k]; [done|]. exfalso. apply (Hnz 0); [lia|done]. }
    assert (found = []) as Hfound by by rewrite /found Hk.
    rewrite Hfound /= in Hl, Hbounds, Hc. rewrite drop_nil take_nil in Hl Hc.
    apply Forall2_nil_inv_r in Hl as ->.
    split; [done|]. split; [nia|]. split; [done|].
    by rewrite Hc Hk.
Qed.

Lemma C2_witness :
  ∃ σ' h2 h3,
    withRawFilter (Literal "items") 260 2 2 five_filter big_state
      = (σ', Ok (Num 3, [h2; h3])) ∧
    loaded σ' (Literal "items") h2 "59" ∧
    loaded σ' (Literal "items") h3 "94".
Proof.
  destruct (C2_pagination (Literal "items") 260 2 2 five_filter big_state)
    as (σ1 & found & σ' & n & hs & Hscan & Hrun & Hb & Hl & Hc & Hfive & Hnone).
  { vm_compute. lia. }
  { lia. }
  { lia. }
  destruct (Hfive "79" "7" "59" "94" "167")
    as (Hfound & -> & h2 & h3 & -> & Hh2 & Hh3).
  { vm_compute. reflexivity. }
  { vm_compute. reflexivity. }
  { reflexivity. }
  { reflexivity. }
  exists σ', h2, h3. split; [exact Hrun|]. split; [exact Hh2|exact Hh3].
Defined.

(** A filter that matches nothing: one query, no page, no handle. *)
Example no_match :
  (withRawFilter (Literal "items") 260 1 10 (λ _ _, false) big_state).2
    = Ok (Num 0, []) ∧
  calls (withRawFilter (Literal "items") 260 1 10 (λ _ _, false) big_state).1
    = [CallQuery "items" 0 100].
Proof. split; vm_compute; reflexivity. Qed.

(** * Further properties *)

(** ** Invariants along the operations *)

Lemma read_handle_fail σ this :
  handles σ !! this = None → read_handle this σ = (σ, Throw TypeError).
Proof. intros E. rewrite /read_handle bind_run /gets E. done. Qed.

Lemma evolves_refl σ : evolves σ σ.
Proof.
  split; [|split].
  - intros l o Ho. by exists o.
  - intros this h Hh. by exists h.
  - intros this h' Hh' Hn. congruence.
Qed.

Lemma evolves_trans σ1 σ2 σ3 : evolves σ1 σ2 → evolves σ2 σ3 → evolves σ1 σ3.
Proof.
  intros (Ho1 & Hh1 & Hn1) (Ho2 & Hh2 & Hn2). split; [|split].
  - intros l o Hl. destruct (Ho1 l o Hl) as (o' & Hl' & Hk).
    destruct (Ho2 l o' Hl') as (o'' & Hl'' & Hk'). exists o''. split; [done|].
    intros key Hkey. by apply Hk', Hk.
  - intros this h Hh. destruct (Hh1 this h Hh) as (h' & Hh' & (?&?&?&?) & Hg).
    destruct (Hh2 this h' Hh') as (h'' & Hh'' & (?&?&?&?) & Hg').
    exists h''. split; [done|]. split; [|by intros; apply Hg', Hg].
    repeat split; congruence.
  - intros this h'' Hh'' Hn.
    destruct (handles σ2 !! this) as [h'|] eqn:Hh'.
    + destruct (Hh2 this h' Hh') as (h2 & Hh2' & _ & Hg).
      rewrite Hh'' in Hh2'. injection Hh2' as <-. apply Hg. by apply (Hn1 this).
    + by apply (Hn2 this).
Qed.

Lemma evolves_tracked σ σ' : tracked σ → evolves σ σ' → tracked σ'.
Proof.
  intros Ht (_ & Hh & Hn) this h' Hh'.
  destruct (handles σ !! this) as [h|] eqn:E.
  - destruct (Hh this h E) as (h2 & Hh2 & _ & Hg).
    rewrite Hh' in Hh2. injection Hh2 as <-. apply Hg. by apply (Ht this).
  - by apply (Hn this).
Qed.

Lemma good_objects σ σ' h :
  (∀ l (o : Obj), objects σ !! l = Some o →
     ∃ o' : Obj, objects σ' !! l = Some o' ∧
                 ∀ key, is_Some (o !! key) → is_Some (o' !! key)) →
  good σ h → good σ' h.
Proof.
  intros Ho (o & Hl & Hk). destruct (Ho _ _ Hl) as (o' & Hl' & Hk').
  exists o'. split; [done|]. intros key Hin. by apply Hk', Hk.
Qed.

(** Only the objects change, and they keep their keys. *)
Lemma evolves_objects σ σ' :
  handles σ' = handles σ →
  (∀ l (o : Obj), objects σ !! l = Some o →
     ∃ o' : Obj, objects σ' !! l = Some o' ∧
                 ∀ key, is_Some (o !! key) → is_Some (o' !! key)) →
  evolves σ σ'.
Proof.
  intros Hh Ho. split; [done|]. split.
  - intros this h E. exists h. rewrite Hh. split; [done|]. split; [done|].
    by apply good_objects.
  - intros this h' E1 E2. rewrite Hh in E1. congruence.
Qed.

Lemma evolves_same σ σ' :
  handles σ' = handles σ → objects σ' = objects σ → evolves σ σ'.
Proof.
  intros Hh Ho. apply evolves_objects; [done|].
  intros l o E. exists o. by rewrite Ho.
Qed.

Lemma evolves_new_object σ (o : Obj) :
  evolves σ (with_objects <[fresh (dom (objects σ)) := o]> σ).
Proof.
  apply evolves_objects; [done|]. intros l o' E. exists o'. split; [|done].
  simpl. rewrite lookup_insert_ne; [|done]. intros <-.
  assert (objects σ !! fresh (dom (objects σ)) = None) as E'
    by apply not_elem_of_dom, is_fresh.
  congruence.
Qed.

(** The handle at [this] is replaced by one with the same identity that is
    good, and the objects keep their keys. *)
Lemma evolves_handle σ σ' this h h' :
  handles σ !! this = Some h →
  handles σ' = <[this := h']> (handles σ) →
  same_identity h h' →
  (∀ l (o : Obj), objects σ !! l = Some o →
     ∃ o' : Obj, objects σ' !! l = Some o' ∧
                 ∀ key, is_Some (o !! key) → is_Some (o' !! key)) →
  good σ' h' →
  evolves σ σ'.
Proof.
  intros Hh Hh' Hid Ho Hg. split; [done|]. split.
  - intros t h0 E. rewrite Hh'. destruct (decide (t = this)) as [->|Hne].
    + rewrite lookup_insert_eq. exists h'. rewrite Hh in E. injection E as <-. done.
    + rewrite lookup_insert_ne; [done|]. exists h0. split; [done|]. split; [done|].
      by apply good_objects.
  - intros t h0 E1 E2. rewrite Hh' in E1.
    destruct (decide (t = this)) as [->|Hne]; [congruence|].
    rewrite lookup_insert_ne in E1; [done|]. congruence.
Qed.

(** A good handle is added at a new location. *)
Lemma evolves_new_handle σ σ' h :
  handles σ' = <[fresh (dom (handles σ)) := h]> (handles σ) →
  objects σ' = objects σ →
  good σ' h →
  evolves σ σ'.
Proof.
  intros Hh' Ho Hg.
  assert (handles σ !! fresh (dom (handles σ)) = None) as Hfresh
    by apply not_elem_of_dom, is_fresh.
  split; [|split].
  - intros l o E. exists o. by rewrite Ho.
  - intros t h0 E. exists h0. rewrite Hh' lookup_insert_ne; [congruence|].
    split; [done|]. split; [done|]. apply good_objects.
    intros l o El. exists o. by rewrite Ho.
  - intros t h0 E1 E2. rewrite Hh' in E1.
    destruct (decide (t = fresh (dom (handles σ)))) as [->|Hne].
    + rewrite lookup_insert_eq in E1. by injection E1 as <-.
    + rewrite lookup_insert_ne in E1; [done|]. congruence.
Qed.

Lemma keeps_ret {A} (P : State → Prop) (a : A) (Q : A → State → Prop) :
  (∀ σ, P σ → Q a σ) → keeps P (mret a) Q.
Proof.
  intros HQ σ _ HP. split; [apply evolves_refl|].
  intros b [= <-]. by apply HQ.
Qed.

Lemma keeps_bind {A B} (P : State → Prop) (m : M A) (Q : A → State → Prop)
    (k : A → M B) (R : B → State → Prop) :
  keeps P m Q → (∀ a, keeps (Q a) (k a) R) → keeps P (m ≫= k) R.
Proof.
  intros Hm Hk σ Ht HP. destruct (Hm σ Ht HP) as [He HQ].
  rewrite bind_run. destruct (m σ) as [σ1 [a| |]]; simpl in *.
  - destruct (Hk a σ1) as [He' HR]; [by apply (evolves_tracked σ)|by apply HQ|].
    split; [by apply (evolves_trans σ σ1)|done].
  - done.
  - done.
Qed.

Lemma keeps_weaken {A} (P P' : State → Prop) (m : M A) (Q Q' : A → State → Prop) :
  keeps P m Q → (∀ σ, P' σ → P σ) → (∀ a σ, Q a σ → Q' a σ) → keeps P' m Q'.
Proof.
  intros Hm HP HQ σ Ht HP'. destruct (Hm σ Ht (HP _ HP')) as [He Hq].
  split; [done|]. intros a E. by apply HQ, Hq.
Qed.

Lemma keeps_any {A} (P : State → Prop) (m : M A) (Q : A → State → Prop) :
  keeps P m Q → keeps P m (λ _, any).
Proof. intros Hm. by apply (keeps_weaken P P m Q). Qed.

Lemma keeps_for_of {A} (l : list A) (body : A → M unit) :
  (∀ x, keeps any (body x) (λ _, any)) → keeps any (for_of l body) (λ _, any).
Proof.
  intros Hbody. induction l as [|x l IH]; [by apply keeps_ret|].
  cbn [for_of]. eapply keeps_bind; [apply Hbody|]. intros u. apply IH.
Qed.

Lemma keeps_mapM {A B} (l : list A) (f : A → M B) :
  (∀ x, keeps any (f x) (λ _, any)) → keeps any (mapM f l) (λ _, any).
Proof.
  intros Hf. induction l as [|x l IH]; [by apply keeps_ret|].
  cbn [mapM]. eapply keeps_bind; [apply Hf|]. intros y.
  eapply keeps_bind; [apply IH|]. intros ys. by apply keeps_ret.
Qed.

(** A step that changes neither the objects nor the handles. *)
Lemma keeps_frame {A} (P : State → Prop) (m : M A) :
  (∀ σ, handles (m σ).1 = handles σ ∧ objects (m σ).1 = objects σ) →
  (∀ σ σ', handles σ' = handles σ → objects σ' = objects σ → P σ → P σ') →
  keeps P m (λ _, P).
Proof.
  intros Hm HP σ _ Hσ. destruct (Hm σ) as [Hh Ho].
  split; [by apply evolves_same|]. intros _ _. by apply (HP σ).
Qed.

Lemma keeps_new_object (o : Obj) :
  keeps any (new_object o) (λ l σ, is_Some (objects σ !! l)).
Proof.
  intros σ _ _. split; [apply evolves_new_object|].
  intros l [= <-]. simpl. rewrite lookup_insert_eq. by eexists.
Qed.

Lemma keeps_new_handle (P : State → Prop) h :
  (∀ σ, P σ → is_Some (objects σ !! docFields h)) →
  docFieldKeysChanged h = [] →
  keeps P (new_handle h) (λ _, any).
Proof.
  intros Hobj Hks σ _ HP. split; [|done].
  destruct (Hobj σ HP) as [o Ho].
  apply (evolves_new_handle _ _ h); [done..|].
  exists o. split; [done|]. rewrite Hks. by intros key ?%not_elem_of_nil.
Qed.

Lemma allocated_frame l σ σ' :
  handles σ' = handles σ → objects σ' = objects σ →
  is_Some (objects σ !! l) → is_Some (objects σ' !! l).
Proof. intros _ ->. done. Qed.

Lemma keeps_constructor (mk : bool → bool) id fields path :
  keeps (λ σ, match fields with
              | Some l => is_Some (objects σ !! l)
              | None => True
              end)
    (fields ← match fields with Some l => mret l | None => new_object ∅ end;
     if truthy id then
       let docRefId := default "" id in
       new_handle {| collectionPath := path; docRefId := docRefId;
                     docFields := fields; docFieldKeysChanged := [];
                     docRef := Firestore_doc (resolve path +:+ "/" +:+ docRefId);
                     isNewDocument := mk true |}
     else
       docRef ← Collection_doc (resolve path);
       new_handle {| collectionPath := path; docRefId := ref_id docRef;
                     docFields := fields; docFieldKeysChanged := [];
                     docRef := docRef; isNewDocument := mk false |})
    (λ _, any).
Proof.
  eapply (keeps_bind _ _ (λ l σ, is_Some (objects σ !! l))).
  - destruct fields as [l|]; [by apply keeps_ret|apply keeps_new_object].
  - intros l. destruct (truthy id).
    + by apply keeps_new_handle.
    + eapply keeps_bind.
      * apply (keeps_frame (λ σ, is_Some (objects σ !! l))); [done|].
        apply allocated_frame.
      * intros docRef. by apply keeps_new_handle.
Qed.

Lemma keeps_FireDoc_constructor id fields path :
  keeps (λ σ, match fields with
              | Some l => is_Some (objects σ !! l)
              | None => True
              end)
    (FireDoc_constructor id fields path) (λ _, any).
Proof. apply (keeps_constructor (λ _, false)). Qed.

Lemma keeps_Main_constructor id fields path :
  keeps (λ σ, match fields with
              | Some l => is_Some (objects σ !! l)
              | None => True
              end)
    (Main_constructor id fields path) (λ _, any).
Proof. apply (keeps_constructor negb). Qed.

Lemma objects_insert_grow σ l0 (o0 o1 : Obj) :
  objects σ !! l0 = Some o0 →
  (∀ key, is_Some (o0 !! key) → is_Some (o1 !! key)) →
  ∀ l (o : Obj), objects σ !! l = Some o →
    ∃ o' : Obj, <[l0 := o1]> (objects σ) !! l = Some o' ∧
                ∀ key, is_Some (o !! key) → is_Some (o' !! key).
Proof.
  intros H0 Hk l o Hl. destruct (decide (l = l0)) as [->|Hne].
  - exists o1. rewrite lookup_insert_eq. split; [done|].
    rewrite H0 in Hl. by injection Hl as <-.
  - exists o. by rewrite lookup_insert_ne.
Qed.

Lemma objects_insert_fresh σ (o1 : Obj) :
  ∀ l (o : Obj), objects σ !! l = Some o →
    ∃ o' : Obj, <[fresh (dom (objects σ)) := o1]> (objects σ) !! l = Some o' ∧
                ∀ key, is_Some (o !! key) → is_Some (o' !! key).
Proof.
  intros l o Hl. exists o. split; [|done].
  rewrite lookup_insert_ne; [|done]. intros <-.
  assert (objects σ !! fresh (dom (objects σ)) = None) as E
    by apply not_elem_of_dom, is_fresh.
  congruence.
Qed.

Lemma keeps_setField this fieldName v :
  keeps any (setField this fieldName v) (λ _, any).
Proof.
  intros σ Ht _. split; [|done].
  destruct (handles σ !! this) as [h|] eqn:Hh.
  - destruct (Ht this h Hh) as (o & Ho & Hk).
    rewrite (setField_run _ _ _ _ fieldName v Hh Ho) /=.
    eapply (evolves_handle _ _ this h); [done|done|done| |].
    + apply (objects_insert_grow σ _ o); [done|].
      intros key Hkey. destruct (decide (key = fieldName)) as [->|Hne].
      * rewrite lookup_insert_eq. by eexists.
      * by rewrite lookup_insert_ne.
    + eexists. simpl. rewrite lookup_insert_eq. split; [done|].
      intros key [Hin|Heq%list_elem_of_singleton]%elem_of_app; [|subst key].
      * destruct (decide (key = fieldName)) as [->|Hne].
        -- rewrite lookup_insert_eq. by eexists.
        -- rewrite lookup_insert_ne; [done|]. by apply Hk.
      * rewrite lookup_insert_eq. by eexists.
  - rewrite /setField bind_run (read_handle_fail _ _ Hh). apply evolves_refl.
Qed.

Lemma keeps_resetDocFieldKeysChanged this :
  keeps any (resetDocFieldKeysChanged this) (λ _, any).
Proof.
  intros σ Ht _. split; [|done].
  destruct (handles σ !! this) as [h|] eqn:Hh.
  - destruct (Ht this h Hh) as (o & Ho & Hk).
    rewrite (resetDocFieldKeysChanged_run _ _ _ Hh) /=.
    eapply (evolves_handle _ _ this h); [done|done|done| |].
    + intros l o' Hl. by exists o'.
    + exists o. split; [done|]. by intros key ?%not_elem_of_nil.
  - rewrite /resetDocFieldKeysChanged bind_run (read_handle_fail _ _ Hh).
    apply evolves_refl.
Qed.

Lemma getDocDataForSaveOperation_fail σ this b :
  handles σ !! this = None →
  getDocDataForSaveOperation this b σ
  = (with_objects <[fresh (dom (objects σ)) := ∅]> σ, Throw TypeError).
Proof.
  intros Hh. rewrite /getDocDataForSaveOperation bind_run /new_object.
  cbv beta iota zeta.
  set (σ1 := with_objects _ σ).
  assert (handles σ1 !! this = None) as Hh1 by done.
  by rewrite bind_run (read_handle_fail _ _ Hh1).
Qed.

Lemma keeps_getDocDataForSaveOperation this b :
  keeps any (getDocDataForSaveOperation this b) (λ _, any).
Proof.
  intros σ Ht _. split; [|done].
  destruct (handles σ !! this) as [h|] eqn:Hh.
  - destruct (Ht this h Hh) as (o & Ho & Hk).
    assert (getDocDataForSaveOperation this b σ
            = getDocDataForSaveOperation this (Some (default false b)) σ) as ->
      by by destruct b.
    rewrite (getDocDataForSaveOperation_run _ _ _ _ _ Hh Ho).
    apply evolves_new_object.
  - rewrite (getDocDataForSaveOperation_fail _ _ _ Hh). apply evolves_new_object.
Qed.

Lemma keeps_load this : keeps any (load this) (λ _, any).
Proof.
  intros σ Ht _. split; [|done].
  destruct (handles σ !! this) as [h|] eqn:Hh.
  - destruct (remote σ !! ref_path (docRef h)) as [data|] eqn:Hr.
    + rewrite (load_found _ _ _ _ Hh Hr) /=.
      eapply (evolves_handle _ _ this h); [done|done|done| |].
      * exact (objects_insert_fresh σ data).
      * eexists. simpl. rewrite lookup_insert_eq. split; [done|].
        by intros key ?%not_elem_of_nil.
    + rewrite (load_missing _ _ _ Hh Hr). by apply evolves_same.
  - rewrite /load (bind_run (read_handle this)) (read_handle_fail _ _ Hh).
    apply evolves_refl.
Qed.

Lemma saved_evolves σ this h (o : Obj) b m :
  handles σ !! this = Some h →
  objects σ !! docFields h = Some o →
  evolves σ (saved σ this h o b m).1.
Proof.
  intros Hh Ho.
  assert (objects σ !! fresh (dom (objects σ)) = None) as Hfresh
    by apply not_elem_of_dom, is_fresh.
  assert (∀ σ', handles σ' = <[this := set_docFieldKeysChanged [] h]> (handles σ) →
                objects σ' = <[fresh (dom (objects σ)) := payload_of b h o]> (objects σ) →
                evolves σ σ') as Hgen.
  { intros σ' Hh' Ho'.
    eapply (evolves_handle _ _ this h); [done|done|done| |].
    - rewrite Ho'. apply objects_insert_fresh.
    - exists o. rewrite Ho' /= lookup_insert_ne; [congruence|].
      split; [done|]. by intros key ?%not_elem_of_nil. }
  rewrite /saved. cbv zeta.
  destruct (decide (payload_of b h o = ∅)); [by apply Hgen|].
  destruct (written _ _ m); by apply Hgen.
Qed.

Lemma save_fail σ this b m :
  handles σ !! this = None →
  (docData ← getDocDataForSaveOperation this (Some b);
   resetDocFieldKeysChanged this;;
   payload ← read_object docData;
   (if negb (length (Object_keys payload) =? 0)%nat
    then h ← read_handle this; DocRef_set (docRef h) payload m
    else mret tt);;
   mret this) σ
  = (with_objects <[fresh (dom (objects σ)) := ∅]> σ, Throw TypeError).
Proof.
  intros Hh. by rewrite bind_run (getDocDataForSaveOperation_fail _ _ _ Hh).
Qed.

Lemma keeps_FireDoc_save this opt : keeps any (FireDoc_save this opt) (λ _, any).
Proof.
  intros σ Ht _. split; [|done].
  destruct (handles σ !! this) as [h|] eqn:Hh.
  - destruct (Ht this h Hh) as (o & Ho & Hk).
    rewrite (FireDoc_save_run _ _ _ _ opt Hh Ho). by apply saved_evolves.
  - rewrite /FireDoc_save (save_fail _ _ _ _ Hh). apply evolves_new_object.
Qed.

Lemma keeps_Main_save this opt : keeps any (Main_save this opt) (λ _, any).
Proof.
  intros σ Ht _. split; [|done].
  destruct (handles σ !! this) as [h|] eqn:Hh.
  - destruct (Ht this h Hh) as (o & Ho & Hk).
    rewrite (Main_save_run _ _ _ _ opt Hh Ho). by apply saved_evolves.
  - rewrite /Main_save (save_fail _ _ _ _ Hh). apply evolves_new_object.
Qed.

Lemma keeps_delete_doc this : keeps any (delete_doc this) (λ _, any).
Proof.
  intros σ Ht _. split; [|done].
  destruct (handles σ !! this) as [h|] eqn:Hh.
  - rewrite (delete_doc_run _ _ _ Hh). by apply evolves_same.
  - rewrite /delete_doc bind_run (read_handle_fail _ _ Hh). apply evolves_refl.
Qed.

Lemma keeps_read_object l : keeps any (read_object l) (λ _, any).
Proof.
  intros σ _ _. split; [|done].
  rewrite /read_object bind_run /gets. destruct (objects σ !! l); apply evolves_refl.
Qed.

Lemma keeps_setFields this fields : keeps any (setFields this fields) (λ _, any).
Proof.
  rewrite /setFields. eapply keeps_bind; [apply keeps_read_object|].
  intros o. eapply keeps_bind; [|intros u; by apply keeps_ret].
  apply keeps_for_of. intros entry.
  eapply keeps_bind; [apply keeps_setField|]. intros ?. by apply keeps_ret.
Qed.

Lemma keeps_Query_get collection offset limit :
  keeps any (Query_get collection offset limit) (λ _, any).
Proof. intros σ _ _. split; [|done]. by apply evolves_same. Qed.

Lemma keeps_DocRef_get r : keeps any (DocRef_get r) (λ _, any).
Proof. intros σ _ _. split; [|done]. by apply evolves_same. Qed.

Lemma keeps_withQuery path query : keeps any (withQuery path query) (λ _, any).
Proof.
  rewrite /withQuery. eapply keeps_bind; [apply keeps_Query_get|].
  intros docs. apply keeps_mapM. intros doc.
  eapply keeps_bind; [apply keeps_new_object|].
  intros l. apply (keeps_FireDoc_constructor _ (Some l)).
Qed.

Lemma keeps_withDocRef path docRef : keeps any (withDocRef path docRef) (λ _, any).
Proof.
  rewrite /withDocRef. eapply keeps_bind; [apply keeps_DocRef_get|].
  intros snapshot.
  eapply (keeps_bind _ _ (λ data σ, match data with
                                    | Some l => is_Some (objects σ !! l)
                                    | None => True
                                    end)).
  - destruct snapshot as [d|]; [|by apply keeps_ret].
    eapply keeps_bind; [apply keeps_new_object|]. intros l. by apply keeps_ret.
  - intros data. apply keeps_FireDoc_constructor.
Qed.

Lemma keeps_scan fuel collection filter : ∀ searchPage found,
  keeps any (scan fuel collection filter searchPage found) (λ _, any).
Proof.
  induction fuel as [|fuel IH]; intros searchPage found.
  - intros σ _ _. split; [apply evolves_refl|done].
  - cbn [scan]. eapply keeps_bind; [apply keeps_Query_get|]. intros docs.
    cbv zeta. destruct (length _ =? 0)%nat; [by apply keeps_ret|apply IH].
Qed.

Lemma keeps_withRawFilter path fuel page perPage filter :
  keeps any (withRawFilter path fuel page perPage filter) (λ _, any).
Proof.
  rewrite /withRawFilter. eapply keeps_bind; [apply keeps_scan|].
  intros found. cbv zeta. eapply keeps_bind; [|intros; by apply keeps_ret].
  apply keeps_mapM. intros i.
  eapply keeps_bind; [apply (keeps_FireDoc_constructor _ None)|].
  intros this. apply keeps_load.
Qed.

Lemma run_op_evolves σ op : tracked σ → allowed σ op → evolves σ (run_op op σ).
Proof.
  intros Ht Ha. destruct op; simpl.
  - apply evolves_new_object.
  - by apply keeps_FireDoc_constructor.
  - by apply keeps_Main_constructor.
  - by apply keeps_setField.
  - by apply keeps_setFields.
  - by apply keeps_resetDocFieldKeysChanged.
  - by apply keeps_getDocDataForSaveOperation.
  - by apply keeps_load.
  - by apply keeps_FireDoc_save.
  - by apply keeps_Main_save.
  - by apply keeps_delete_doc.
  - by apply keeps_withQuery.
  - by apply keeps_withDocRef.
  - by apply keeps_withRawFilter.
  - by apply evolves_same.
Qed.

Lemma reachable_evolves σ0 σ :
  tracked σ0 → reachable σ0 σ → tracked σ ∧ evolves σ0 σ.
Proof.
  intros Ht0. induction 1 as [|σ op Hr [Ht He] Ha].
  - split; [done|apply evolves_refl].
  - pose proof (run_op_evolves σ op Ht Ha) as Hstep.
    split; [by apply (evolves_tracked σ)|by apply (evolves_trans σ0 σ)].
Qed.

(** ** Construction *)

Lemma constructor_run (isNew : bool) id fields path σ :
  fields_exist σ fields →
  let l := match fields with Some l => l | None => fresh (dom (objects σ)) end in
  let σo := match fields with
            | Some _ => σ
            | None => with_objects <[fresh (dom (objects σ)) := ∅]> σ
            end in
  let h := {| collectionPath := path;
              docRefId := if truthy id then default "" id
                          else autoIds σ (autoIdCount σ);
              docFields := l; docFieldKeysChanged := [];
              docRef := if truthy id
                        then Firestore_doc (resolve path +:+ "/" +:+ default "" id)
                        else {| ref_path := resolve path +:+ "/" +:+
                                             autoIds σ (autoIdCount σ);
                                ref_id := autoIds σ (autoIdCount σ) |};
              isNewDocument := if truthy id then false else isNew |} in
  (fields ← match fields with Some l => mret l | None => new_object ∅ end;
   if truthy id then
     let docRefId := default "" id in
     new_handle {| collectionPath := path; docRefId := docRefId;
                   docFields := fields; docFieldKeysChanged := [];
                   docRef := Firestore_doc (resolve path +:+ "/" +:+ docRefId);
                   isNewDocument := false |}
   else
     docRef ← Collection_doc (resolve path);
     new_handle {| collectionPath := path; docRefId := ref_id docRef;
                   docFields := fields; docFieldKeysChanged := [];
                   docRef := docRef; isNewDocument := isNew |}) σ
  = (with_handles <[fresh (dom (handles σ)) := h]>
       (if truthy id then σo else bump_autoId σo),
     Ok (fresh (dom (handles σ)))).
Proof.
  intros _. cbv zeta. rewrite bind_run.
  destruct fields as [l|]; rewrite /= /new_object /=; by destruct (truthy id).
Qed.

(** ** [save] as a state change *)

Lemma saved_effect σ this h (o : Obj) b m :
  ∃ σ' r,
    saved σ this h o b m = (σ', r) ∧
    handles σ' = <[this := set_docFieldKeysChanged [] h]> (handles σ) ∧
    objects σ' = <[fresh (dom (objects σ)) := payload_of b h o]> (objects σ) ∧
    if decide (payload_of b h o = ∅)
    then r = Ok this ∧ remote σ' = remote σ ∧ calls σ' = calls σ
    else calls σ' = calls σ ++ [CallSet (ref_path (docRef h)) (payload_of b h o) m] ∧
         match written (remote σ !! ref_path (docRef h)) (payload_of b h o) m with
         | Some d => r = Ok this ∧
                     remote σ' = <[ref_path (docRef h) := d]> (remote σ)
         | None => r = Throw FirestoreError ∧ remote σ' = remote σ
         end.
Proof.
  rewrite /saved. cbv zeta.
  destruct (decide (payload_of b h o = ∅)); [by do 2 eexists|].
  destruct (written _ _ m); by do 2 eexists.
Qed.

Lemma payload_of_no_changes h (o : Obj) :
  docFieldKeysChanged h = [] → payload_of true h o = ∅.
Proof. intros E. by rewrite /payload_of E. Qed.



Lemma create_run path id l (o : Obj) σ :
  objects σ !! l = Some o →
  ∃ σ1 this h,
    create path id (Some l) σ = (σ1, Ok this) ∧
    handles σ1 !! this = Some h ∧
    docFields h = l ∧ docFieldKeysChanged h = [] ∧
    objects σ1 = objects σ ∧ remote σ1 = remote σ ∧ calls σ1 = calls σ ∧
    docRefId h = (if truthy id then default "" id else autoIds σ (autoIdCount σ)) ∧
    ref_path (docRef h) = resolve path +:+ "/" +:+ docRefId h.
Proof.
  intros Ho.
  pose proof (constructor_run false id (Some l) path σ) as Hrun.
  cbv zeta in Hrun. do 3 eexists. split; [apply Hrun; by eexists|].
  simpl. rewrite lookup_insert_eq. split; [done|].
  by destruct (truthy id).
Qed.

(** X2: a handle created with initial fields has nothing to save: [save]
    in a changes mode calls the collaborator not at all, while [save] in an
    overwrite mode writes all the initial fields, without merge. *)
Theorem created_handle_is_clean path id l (o : Obj) σ opt :
  objects σ !! l = Some o →
  ∃ σ1 this h σ2 r,
    create path id (Some l) σ = (σ1, Ok this) ∧
    handles σ1 !! this = Some h ∧
    FireDoc_save this opt σ1 = (σ2, r) ∧
    if onlyChanges_of opt
    then r = Ok this ∧ calls σ2 = calls σ ∧ remote σ2 = remote σ
    else calls σ2 = calls σ ++
           (if decide (o = ∅) then [] else [CallSet (ref_path (docRef h)) o false]).
Proof.
  intros Ho.
  destruct (create_run path id l o σ Ho)
    as (σ1 & this & h & Hrun & Hh & Hl & Hks & Hobj & Hr & Hc & _).
  assert (objects σ1 !! docFields h = Some o) as Ho1 by by rewrite Hl Hobj.
  destruct (saved_effect σ1 this h o (onlyChanges_of opt) (onlyChanges_of opt))
    as (σ2 & r & Hs & _ & _ & Heff).
  exists σ1, this, h, σ2, r. split; [done|]. split; [done|].
  rewrite (FireDoc_save_run _ _ _ _ opt Hh Ho1). split; [done|].
  revert Heff. destruct (onlyChanges_of opt); intros Heff.
  - rewrite (payload_of_no_changes _ _ Hks) in Heff.
    revert Heff. destruct (decide _) as [_|?]; [|done].
    intros (-> & -> & ->). by rewrite Hr Hc.
  - rewrite /payload_of in Heff. revert Heff. destruct (decide (o = ∅)).
    + intros (_ & _ & ->). by rewrite Hc app_nil_r.
    + intros [-> _]. by rewrite Hc.
Qed.

Lemma created_handle_is_clean_witness :
  ∃ σ1 this h σ2 r,
    create (Literal "users") (Some "a") (Some 1%positive) example_state0
      = (σ1, Ok this) ∧
    handles σ1 !! this = Some h ∧
    FireDoc_save this None σ1 = (σ2, r) ∧
    r = Ok this ∧ calls σ2 = calls example_state0 ∧
    remote σ2 = remote example_state0.
Proof.
  apply (created_handle_is_clean (Literal "users") (Some "a") 1%positive
           {[ "n" := VNum 7; "t" := VTimestamp 9 0 ]} example_state0 None).
  reflexivity.
Defined.

(** X3: the object given to [create] is the handle's fields object: what
    [setField] stores shows in the caller's object.  [load] gives the handle
    a new object, so a [setField] after it leaves the caller's object as it
    was. *)
Theorem created_handle_shares_fields path i l (o data : Obj) σ k v k' v' :
  i ≠ "" →
  objects σ !! l = Some o →
  remote σ !! (resolve path +:+ "/" +:+ i) = Some data →
  ∃ σ1 this σ2 σ3 σ4 h4,
    create path (Some i) (Some l) σ = (σ1, Ok this) ∧
    setField this k v σ1 = (σ2, Ok this) ∧
    objects σ2 !! l = Some (<[k := to_store v]> o) ∧
    load this σ2 = (σ3, Ok this) ∧
    setField this k' v' σ3 = (σ4, Ok this) ∧
    objects σ4 !! l = Some (<[k := to_store v]> o) ∧
    handles σ4 !! this = Some h4 ∧
    docFields h4 ≠ l ∧
    objects σ4 !! docFields h4 = Some (<[k' := to_store v']> data).
Proof.
  intros Hi Ho Hr.
  destruct (create_run path (Some i) l o σ Ho)
    as (σ1 & this & h & Hrun & Hh & Hl & Hks & Hobj & Hr1 & Hc & Hid & Hpath).
  assert (truthy (Some i) = true) as Ht.
  { rewrite /truthy. apply String.eqb_neq in Hi. by rewrite Hi. }
  rewrite Ht /= in Hid. rewrite Hid in Hpath.
  assert (objects σ1 !! docFields h = Some o) as Ho1 by by rewrite Hl Hobj.
  pose proof (setField_run σ1 this h o k v Hh Ho1) as Hset.
  set (h2 := set_docFieldKeysChanged _ h) in Hset.
  set (σ2 := with_handles _ _) in Hset.
  assert (handles σ2 !! this = Some h2) as Hh2.
  { rewrite /σ2 /=. by rewrite lookup_insert_eq. }
  assert (objects σ2 !! l = Some (<[k := to_store v]> o)) as Ho2.
  { rewrite /σ2 /= Hl. by rewrite lookup_insert_eq. }
  assert (remote σ2 !! ref_path (docRef h2) = Some data) as Hr2.
  { rewrite /σ2 /h2 /= Hpath Hr1. done. }
  pose proof (load_found σ2 this h2 data Hh2 Hr2) as Hload.
  set (l3 := fresh (dom (objects σ2))) in Hload.
  set (h3 := set_docFields l3 _) in Hload.
  set (σ3 := with_handles _ _) in Hload.
  assert (objects σ2 !! l3 = None) as Hl3 by apply not_elem_of_dom, is_fresh.
  assert (l3 ≠ l) as Hne by (intros E; rewrite E in Hl3; congruence).
  assert (handles σ3 !! this = Some h3) as Hh3.
  { rewrite /σ3 /=. by rewrite lookup_insert_eq. }
  assert (objects σ3 !! docFields h3 = Some data) as Ho3.
  { rewrite /σ3 /=. by rewrite lookup_insert_eq. }
  pose proof (setField_run σ3 this h3 data k' v' Hh3 Ho3) as Hset'.
  do 6 eexists. split; [exact Hrun|]. split; [exact Hset|]. split; [exact Ho2|].
  split; [exact Hload|]. split; [exact Hset'|].
  split; [|split; [|split]].
  - rewrite /= lookup_insert_ne; [done|].
    rewrite /σ3 /= lookup_insert_ne; [done|]. exact Ho2.
  - simpl. by rewrite lookup_insert_eq.
  - done.
  - simpl. by rewrite lookup_insert_eq.
Qed.

Lemma created_handle_shares_fields_witness :
  ∃ σ1 this σ2 σ3 σ4 h4,
    create (Literal "users") (Some "a") (Some 1%positive) example_state0
      = (σ1, Ok this) ∧
    setField this "n" (VNum 8) σ1 = (σ2, Ok this) ∧
    objects σ2 !! 1%positive
      = Some (<["n" := VNum 8]> {[ "n" := VNum 7; "t" := VTimestamp 9 0 ]}) ∧
    load this σ2 = (σ3, Ok this) ∧
    setField this "n" VUndefined σ3 = (σ4, Ok this) ∧
    objects σ4 !! 1%positive
      = Some (<["n" := VNum 8]> {[ "n" := VNum 7; "t" := VTimestamp 9 0 ]}) ∧
    handles σ4 !! this = Some h4 ∧
    docFields h4 ≠ 1%positive ∧
    objects σ4 !! docFields h4
      = Some (<["n" := VDelete]> {[ "n" := VNum 1; "t" := VTimestamp 5 0 ]}).
Proof.
  apply (created_handle_shares_fields (Literal "users") "a" 1%positive
           {[ "n" := VNum 7; "t" := VTimestamp 9 0 ]}
           {[ "n" := VNum 1; "t" := VTimestamp 5 0 ]}
           example_state0 "n" (VNum 8) "n" VUndefined).
  - discriminate.
  - reflexivity.
  - reflexivity.
Defined.

(** X4: [getAllFields] hands out the live fields object and
    [getDocDataForSaveOperation] a copy: a later [setField] shows in the
    former and not in the latter. *)
Theorem getAllFields_is_live σ this h (o : Obj) k v :
  handles σ !! this = Some h →
  objects σ !! docFields h = Some o →
  ∃ l σ1 c σ2,
    getAllFields this σ = (σ, Ok l) ∧
    getDocDataForSaveOperation this (Some false) σ = (σ1, Ok c) ∧
    setField this k v σ1 = (σ2, Ok this) ∧
    objects σ2 !! l = Some (<[k := to_store v]> o) ∧
    objects σ2 !! c = Some o.
Proof.
  intros Hh Ho.
  assert (objects σ !! fresh (dom (objects σ)) = None) as Hfresh
    by apply not_elem_of_dom, is_fresh.
  assert (fresh (dom (objects σ)) ≠ docFields h) as Hne
    by (intros E; rewrite E in Hfresh; congruence).
  pose proof (getDocDataForSaveOperation_run σ this h o false Hh Ho) as Hcopy.
  set (σ1 := with_objects _ σ) in Hcopy.
  assert (handles σ1 !! this = Some h) as Hh1 by done.
  assert (objects σ1 !! docFields h = Some o) as Ho1.
  { rewrite /σ1 /=. by rewrite lookup_insert_ne. }
  exists (docFields h). do 3 eexists.
  split; [by rewrite /getAllFields (bind_ok _ _ _ _ _ (read_handle_run _ _ _ Hh))|].
  split; [exact Hcopy|].
  split; [exact (setField_run σ1 this h o k v Hh1 Ho1)|].
  simpl. rewrite lookup_insert_eq. split; [done|].
  rewrite lookup_insert_ne; [done|]. by rewrite lookup_insert_eq.
Qed.

Lemma getAllFields_is_live_witness :
  ∃ l σ1 c σ2,
    getAllFields 1%positive example_state1 = (example_state1, Ok l) ∧
    getDocDataForSaveOperation 1%positive (Some false) example_state1 = (σ1, Ok c) ∧
    setField 1%positive "n" (VNum 9) σ1 = (σ2, Ok 1%positive) ∧
    objects σ2 !! l = Some (<["n" := VNum 9]> example_fields) ∧
    objects σ2 !! c = Some example_fields.
Proof.
  apply (getAllFields_is_live example_state1 1%positive example_handle
           example_fields "n" (VNum 9)); reflexivity.
Defined.

Lemma tracked_no_handles σ : handles σ = ∅ → tracked σ.
Proof. intros E this h. by rewrite E lookup_empty. Qed.

(** X5: along every sequence of calls on handles and binders, started
    before any handle exists, every handle has its fields object and each
    of its changed keys is a key of that object.  So the check
    [Object.keys(this.docFields).includes(key)] never drops a key: the keys
    of [getDocDataForSaveOperation(true)] are exactly the changed keys. *)
Theorem changed_keys_are_fields σ0 σ this h :
  handles σ0 = ∅ →
  reachable σ0 σ →
  handles σ !! this = Some h →
  ∃ o payload : Obj,
    objects σ !! docFields h = Some o ∧
    (∀ key, key ∈ docFieldKeysChanged h → key ∈ Object_keys o) ∧
    getDocDataForSaveOperation this (Some true) σ
      = (with_objects <[fresh (dom (objects σ)) := payload]> σ,
         Ok (fresh (dom (objects σ)))) ∧
    ∀ key, key ∈ Object_keys payload ↔ key ∈ docFieldKeysChanged h.
Proof.
  intros H0 Hreach Hh.
  destruct (reachable_evolves σ0 σ (tracked_no_handles _ H0) Hreach) as [Ht _].
  destruct (Ht this h Hh) as (o & Ho & Hk).
  exists o, (payload_of true h o). split; [done|].
  split; [intros key Hin; by apply elem_of_Object_keys, Hk|].
  split; [by apply getDocDataForSaveOperation_run|].
  intros key. rewrite elem_of_Object_keys /payload_of lookup_pick.
  destruct (decide (key ∈ docFieldKeysChanged h)) as [Hin|Hnin].
  - destruct (Hk key Hin) as [v ->]. split; [done|by eexists].
  - rewrite lookup_empty. split; [by intros [? ?]|done].
Qed.

Lemma example_state1_reachable : reachable example_state0 example_state1.
Proof.
  assert (example_state1
          = run_op (OpSetField 1%positive "n" (VNum 8))
              (run_op (OpCreate (Literal "users") (Some "a") (Some 1%positive))
                 example_state0)) as ->
    by (vm_compute; reflexivity).
  apply reachable_step; [|exact I].
  apply reachable_step; [apply reachable_start|].
  simpl. eexists. reflexivity.
Defined.

Lemma changed_keys_are_fields_witness :
  ∃ o payload : Obj,
    objects example_state1 !! docFields example_handle = Some o ∧
    (∀ key, key ∈ docFieldKeysChanged example_handle → key ∈ Object_keys o) ∧
    getDocDataForSaveOperation 1%positive (Some true) example_state1
      = (with_objects <[fresh (dom (objects example_state1)) := payload]>
           example_state1,
         Ok (fresh (dom (objects example_state1)))) ∧
    ∀ key, key ∈ Object_keys payload ↔ key ∈ docFieldKeysChanged example_handle.
Proof.
  apply (changed_keys_are_fields example_state0 example_state1 1%positive
           example_handle).
  - reflexivity.
  - exact example_state1_reachable.
  - reflexivity.
Defined.

(** X6: no call ever rebinds a handle: along every sequence of calls, a
    handle keeps its id, its document reference, its collection path and its
    [isNewDocument] flag; in particular [save] and [load] never clear the
    flag. *)
Theorem handle_identity_is_stable σi σ0 σ this h :
  handles σi = ∅ →
  reachable σi σ0 →
  reachable σ0 σ →
  handles σ0 !! this = Some h →
  ∃ h', handles σ !! this = Some h' ∧
        docRefId h' = docRefId h ∧ docRef h' = docRef h ∧
        collectionPath h' = collectionPath h ∧
        isNewDocument h' = isNewDocument h.
Proof.
  intros Hi Hr0 Hr Hh.
  destruct (reachable_evolves σi σ0 (tracked_no_handles _ Hi) Hr0) as [Ht0 _].
  destruct (reachable_evolves σ0 σ Ht0 Hr) as [_ (_ & Hstable & _)].
  destruct (Hstable this h Hh) as (h' & Hh' & Hid & _). by exists h'.
Qed.

Lemma handle_identity_is_stable_witness :
  ∃ h', handles (run_op (OpLoad 1%positive)
                   (run_op (OpSaveMain 1%positive None) example_state1))
          !! 1%positive = Some h' ∧
        docRefId h' = docRefId example_handle ∧
        docRef h' = docRef example_handle ∧
        collectionPath h' = collectionPath example_handle ∧
        isNewDocument h' = isNewDocument example_handle.
Proof.
  apply (handle_identity_is_stable example_state0 example_state1).
  - reflexivity.
  - exact example_state1_reachable.
  - apply reachable_step; [|exact I].
    apply reachable_step; [apply reachable_start|exact I].
  - reflexivity.
Defined.

(** X7: after a [save], whatever its mode and outcome, nothing is left to
    save: a second [save] in a changes mode succeeds without calling the
    collaborator, in both variants of the class. *)
Theorem second_save_writes_nothing σ this h (o : Obj) opt opt' :
  handles σ !! this = Some h →
  objects σ !! docFields h = Some o →
  onlyChanges_of opt' = true →
  (∃ σ1 r σ2,
      FireDoc_save this opt σ = (σ1, r) ∧
      FireDoc_save this opt' σ1 = (σ2, Ok this) ∧
      calls σ2 = calls σ1 ∧ remote σ2 = remote σ1) ∧
  (∃ σ1 r σ2,
      Main_save this opt σ = (σ1, r) ∧
      Main_save this opt' σ1 = (σ2, Ok this) ∧
      calls σ2 = calls σ1 ∧ remote σ2 = remote σ1).
Proof.
  intros Hh Ho Hopt'.
  assert (objects σ !! fresh (dom (objects σ)) = None) as Hfresh
    by apply not_elem_of_dom, is_fresh.
  assert (∀ m m',
    ∃ σ1 r σ2,
      saved σ this h o (onlyChanges_of opt) m = (σ1, r) ∧
      handles σ1 !! this = Some (set_docFieldKeysChanged [] h) ∧
      objects σ1 !! docFields (set_docFieldKeysChanged [] h) = Some o ∧
      saved σ1 this (set_docFieldKeysChanged [] h) o true m' = (σ2, Ok this) ∧
      calls σ2 = calls σ1 ∧ remote σ2 = remote σ1) as Hgen.
  { intros m m'.
    destruct (saved_effect σ this h o (onlyChanges_of opt) m)
      as (σ1 & r & Hs & Hh1 & Ho1 & _).
    destruct (saved_effect σ1 this (set_docFieldKeysChanged [] h) o true m')
      as (σ2 & r2 & Hs2 & _ & _ & Heff).
    rewrite payload_of_no_changes in Heff; [done|].
    revert Heff. destruct (decide _) as [_|?]; [|done]. intros (-> & ? & ?).
    exists σ1, r, σ2. split; [done|].
    split; [by rewrite Hh1 lookup_insert_eq|].
    split; [|done]. rewrite Ho1 /= lookup_insert_ne; [congruence|done]. }
  split.
  - destruct (Hgen (onlyChanges_of opt) true) as (σ1 & r & σ2 & Hs & Hh1 & Ho1 & Hs2 & ? & ?).
    exists σ1, r, σ2. rewrite (FireDoc_save_run _ _ _ _ opt Hh Ho).
    rewrite (FireDoc_save_run _ _ _ _ opt' Hh1 Ho1) Hopt'. done.
  - destruct (Hgen true true) as (σ1 & r & σ2 & Hs & Hh1 & Ho1 & Hs2 & ? & ?).
    exists σ1, r, σ2. rewrite (Main_save_run _ _ _ _ opt Hh Ho).
    rewrite (Main_save_run _ _ _ _ opt' Hh1 Ho1) Hopt'. done.
Qed.

Lemma second_save_writes_nothing_witness :
  (∃ σ1 r σ2,
      FireDoc_save 1%positive (Some OptOverwrite) example_state1 = (σ1, r) ∧
      FireDoc_save 1%positive None σ1 = (σ2, Ok 1%positive) ∧
      calls σ2 = calls σ1 ∧ remote σ2 = remote σ1) ∧
  (∃ σ1 r σ2,
      Main_save 1%positive (Some OptOverwrite) example_state1 = (σ1, r) ∧
      Main_save 1%positive None σ1 = (σ2, Ok 1%positive) ∧
      calls σ2 = calls σ1 ∧ remote σ2 = remote σ1).
Proof.
  apply (second_save_writes_nothing example_state1 1%positive example_handle
           example_fields (Some OptOverwrite) None); reflexivity.
Defined.

(** X8: [delete] removes the remote document and leaves the handle, its
    fields and its changed keys as they were; a [load] that follows throws
    the message of the missing document. *)
Theorem delete_then_load σ this h :
  handles σ !! this = Some h →
  ∃ σ1 σ2,
    delete_doc this σ = (σ1, Ok this) ∧
    handles σ1 = handles σ ∧ objects σ1 = objects σ ∧
    remote σ1 = delete (ref_path (docRef h)) (remote σ) ∧
    calls σ1 = calls σ ++ [CallDelete (ref_path (docRef h))] ∧
    load this σ1 = (σ2, Throw (not_found (docRefId h))) ∧
    handles σ2 = handles σ ∧ objects σ2 = objects σ.
Proof.
  intros Hh. rewrite (delete_doc_run _ _ _ Hh).
  set (σ1 := with_remote _ _).
  assert (handles σ1 !! this = Some h) as Hh1 by done.
  assert (remote σ1 !! ref_path (docRef h) = None) as Hr1.
  { rewrite /σ1 /=. by rewrite lookup_delete_eq. }
  exists σ1. eexists. split; [done|]. do 4 (split; [done|]).
  split; [exact (load_missing _ _ _ Hh1 Hr1)|done].
Qed.

Lemma delete_then_load_witness :
  ∃ σ1 σ2,
    delete_doc 1%positive example_state1 = (σ1, Ok 1%positive) ∧
    handles σ1 = handles example_state1 ∧ objects σ1 = objects example_state1 ∧
    remote σ1 = delete "users/a" (remote example_state1) ∧
    calls σ1 = calls example_state1 ++ [CallDelete "users/a"] ∧
    load 1%positive σ1 = (σ2, Throw (not_found "a")) ∧
    handles σ2 = handles example_state1 ∧ objects σ2 = objects example_state1.
Proof.
  apply (delete_then_load example_state1 1%positive example_handle). reflexivity.
Defined.



(** ** Saving and loading again *)

Lemma stored_as_is_plain v :
  stored_as_is v = true → is_undefined v = false ∧ is_delete v = false.
Proof. by destruct v. Qed.

Lemma merge_field_lookup (old payload : Obj) key :
  merge merge_field old payload !! key
  = match payload !! key with
    | Some v => if is_delete v then None else Some v
    | None => old !! key
    end.
Proof.
  rewrite lookup_merge. destruct (payload !! key) as [v|] eqn:E.
  - destruct (old !! key); by destruct v.
  - by destruct (old !! key).
Qed.



Lemma setField_save_load σ this h (o : Obj) k v :
  handles σ !! this = Some h →
  objects σ !! docFields h = Some o →
  docFieldKeysChanged h = [] →
  ∃ σ1 σ2 σ3 h3,
    setField this k v σ = (σ1, Ok this) ∧
    FireDoc_save this None σ1 = (σ2, Ok this) ∧
    load this σ2 = (σ3, Ok this) ∧
    handles σ3 !! this = Some h3 ∧
    docFieldKeysChanged h3 = [] ∧
    objects σ3 !! docFields h3
      = Some (merge merge_field (default ∅ (remote σ !! ref_path (docRef h)))
                {[k := to_store v]}) ∧
    remote σ3 = <[ref_path (docRef h) :=
                   merge merge_field (default ∅ (remote σ !! ref_path (docRef h)))
                     {[k := to_store v]}]> (remote σ) ∧
    calls σ3 = calls σ ++ [CallSet (ref_path (docRef h)) {[k := to_store v]} true;
                           CallGet (ref_path (docRef h))].
Proof.
  intros Hh Ho Hks.
  pose proof (setField_run σ this h o k v Hh Ho) as Hset.
  rewrite Hks /= in Hset.
  set (h1 := set_docFieldKeysChanged [k] h) in Hset.
  set (o1 := <[k := _]> o) in Hset.
  set (σ1 := with_handles _ _) in Hset.
  assert (handles σ1 !! this = Some h1) as Hh1.
  { rewrite /σ1 /=. by rewrite lookup_insert_eq. }
  assert (objects σ1 !! docFields h1 = Some o1) as Ho1.
  { rewrite /σ1 /=. by rewrite lookup_insert_eq. }
  assert (payload_of true h1 o1 = {[k := to_store v]}) as HP.
  { rewrite /payload_of /h1 /= /pick /= /o1 lookup_insert_eq. done. }
  destruct (saved_effect σ1 this h1 o1 true true) as (σ2 & r & Hs & Hh2 & Ho2 & Heff).
  rewrite HP in Hs Ho2 Heff. revert Heff. destruct (decide _) as [E|_].
  { apply (f_equal (.!! k)) in E. by rewrite lookup_singleton_eq lookup_empty in E. }
  rewrite /written. intros (Hc2 & -> & Hr2).
  set (d := merge merge_field _ _) in Hr2.
  assert (handles σ2 !! this = Some (set_docFieldKeysChanged [] h1)) as Hh2'.
  { by rewrite Hh2 lookup_insert_eq. }
  assert (remote σ2 !! ref_path (docRef (set_docFieldKeysChanged [] h1)) = Some d)
    as Hr2'.
  { by rewrite Hr2 /= lookup_insert_eq. }
  pose proof (load_found σ2 this _ d Hh2' Hr2') as Hload.
  exists σ1, σ2. do 2 eexists. split; [exact Hset|].
  split; [by rewrite (FireDoc_save_run _ _ _ _ None Hh1 Ho1)|].
  split; [exact Hload|]. simpl. rewrite !lookup_insert_eq.
  split; [reflexivity|]. split; [done|].
  split; [simpl; by rewrite lookup_insert_eq|]. split; [done|].
  by rewrite Hc2 -app_assoc.
Qed.

(** X11: on a handle with no pending change, [setField(k, v)], [save()],
    [load()] and [getField(k)] give back [v] (a native timestamp as its date)
    for every value [v] the collaborator stores as written; the other remote
    fields come back with it. *)
Theorem setField_save_load_getField toDate σ this h (o : Obj) k v :
  handles σ !! this = Some h →
  objects σ !! docFields h = Some o →
  docFieldKeysChanged h = [] →
  stored_as_is v = true →
  ∃ σ1 σ2 σ3,
    setField this k v σ = (σ1, Ok this) ∧
    FireDoc_save this None σ1 = (σ2, Ok this) ∧
    load this σ2 = (σ3, Ok this) ∧
    getField toDate this k σ3 = (σ3, Ok (normalized toDate v)) ∧
    ∀ k', k' ≠ k →
      getField toDate this k' σ3
      = (σ3, Ok (normalized toDate
                   (prop_read (default ∅ (remote σ !! ref_path (docRef h))) k'))).
Proof.
  intros Hh Ho Hks [Hu Hd]%stored_as_is_plain.
  destruct (setField_save_load σ this h o k v Hh Ho Hks)
    as (σ1 & σ2 & σ3 & h3 & Hset & Hsave & Hload & Hh3 & _ & Ho3 & _).
  exists σ1, σ2, σ3. do 3 (split; [done|]).
  rewrite /to_store Hu in Ho3. split.
  - rewrite (getField_run toDate _ _ _ _ k Hh3 Ho3) /prop_read.
    by rewrite merge_field_lookup lookup_singleton_eq Hd.
  - intros k' Hne. rewrite (getField_run toDate _ _ _ _ k' Hh3 Ho3) /prop_read.
    by rewrite merge_field_lookup lookup_singleton_ne.
Qed.

Lemma setField_save_load_getField_witness :
  ∃ σ1 σ2 σ3,
    setField 1%positive "when" (VTimestamp 3 0) example_state0' = (σ1, Ok 1%positive) ∧
    FireDoc_save 1%positive None σ1 = (σ2, Ok 1%positive) ∧
    load 1%positive σ2 = (σ3, Ok 1%positive) ∧
    getField (λ seconds _, seconds * 1000)%Z 1%positive "when" σ3
      = (σ3, Ok (VDate 3000)) ∧
    ∀ k', k' ≠ "when" →
      getField (λ seconds _, seconds * 1000)%Z 1%positive k' σ3
      = (σ3, Ok (normalized (λ seconds _, seconds * 1000)%Z
                   (prop_read (default ∅ (remote example_state0' !! "users/a")) k'))).
Proof.
  apply (setField_save_load_getField (λ seconds _, seconds * 1000)%Z
           example_state0' 1%positive
           (set_docFieldKeysChanged [] example_handle) example_fields
           "when" (VTimestamp 3 0)); reflexivity.
Defined.

(** X12: on a handle with no pending change, [setField(k, undefined)],
    [save()] and [load()] remove the field: the remote document and the
    loaded fields are the old remote document without [k], and
    [getField(k)] answers [undefined]. *)
Theorem setField_undefined_removes_field toDate σ this h (o : Obj) k :
  handles σ !! this = Some h →
  objects σ !! docFields h = Some o →
  docFieldKeysChanged h = [] →
  ∃ σ1 σ2 σ3 h3,
    setField this k VUndefined σ = (σ1, Ok this) ∧
    FireDoc_save this None σ1 = (σ2, Ok this) ∧
    load this σ2 = (σ3, Ok this) ∧
    remote σ3 !! ref_path (docRef h)
      = Some (delete k (default ∅ (remote σ !! ref_path (docRef h)))) ∧
    handles σ3 !! this = Some h3 ∧
    objects σ3 !! docFields h3
      = Some (delete k (default ∅ (remote σ !! ref_path (docRef h)))) ∧
    getField toDate this k σ3 = (σ3, Ok VUndefined).
Proof.
  intros Hh Ho Hks.
  destruct (setField_save_load σ this h o k VUndefined Hh Ho Hks)
    as (σ1 & σ2 & σ3 & h3 & Hset & Hsave & Hload & Hh3 & _ & Ho3 & Hr3 & _).
  assert (merge merge_field (default ∅ (remote σ !! ref_path (docRef h)))
            {[k := to_store VUndefined]}
          = delete k (default ∅ (remote σ !! ref_path (docRef h)))) as E.
  { apply map_eq. intros key. rewrite merge_field_lookup.
    destruct (decide (key = k)) as [->|Hne].
    - by rewrite lookup_singleton_eq lookup_delete_eq.
    - by rewrite lookup_singleton_ne // lookup_delete_ne. }
  rewrite E in Ho3 Hr3.
  exists σ1, σ2, σ3, h3. do 3 (split; [done|]).
  split; [by rewrite Hr3 lookup_insert_eq|]. do 2 (split; [done|]).
  rewrite (getField_run toDate _ _ _ _ k Hh3 Ho3) /prop_read.
  by rewrite lookup_delete_eq.
Qed.

Lemma setField_undefined_removes_field_witness :
  ∃ σ1 σ2 σ3 h3,
    setField 1%positive "t" VUndefined example_state0' = (σ1, Ok 1%positive) ∧
    FireDoc_save 1%positive None σ1 = (σ2, Ok 1%positive) ∧
    load 1%positive σ2 = (σ3, Ok 1%positive) ∧
    remote σ3 !! "users/a"
      = Some (delete "t" (default ∅ (remote example_state0' !! "users/a"))) ∧
    handles σ3 !! 1%positive = Some h3 ∧
    objects σ3 !! docFields h3
      = Some (delete "t" (default ∅ (remote example_state0' !! "users/a"))) ∧
    getField (λ seconds _, seconds * 1000)%Z 1%positive "t" σ3
      = (σ3, Ok VUndefined).
Proof.
  apply (setField_undefined_removes_field (λ seconds _, seconds * 1000)%Z
           example_state0' 1%positive
           (set_docFieldKeysChanged [] example_handle) example_fields "t");
    reflexivity.
Defined.





(** X14: [load] drops the changes that were not saved: after [setField]
    and [load] the handle holds the remote data and no changed key, and a
    following [save()] calls the collaborator not at all. *)
Theorem load_discards_changes σ this h (o data : Obj) k v :
  handles σ !! this = Some h →
  objects σ !! docFields h = Some o →
  remote σ !! ref_path (docRef h) = Some data →
  ∃ σ1 σ2 σ3 h3,
    setField this k v σ = (σ1, Ok this) ∧
    load this σ1 = (σ2, Ok this) ∧
    FireDoc_save this None σ2 = (σ3, Ok this) ∧
    handles σ3 !! this = Some h3 ∧
    docFieldKeysChanged h3 = [] ∧
    objects σ3 !! docFields h3 = Some data ∧
    remote σ3 = remote σ ∧
    calls σ3 = calls σ ++ [CallGet (ref_path (docRef h))].
Proof.
  intros Hh Ho Hr.
  pose proof (setField_run σ this h o k v Hh Ho) as Hset.
  set (h1 := set_docFieldKeysChanged _ h) in Hset.
  set (σ1 := with_handles _ _) in Hset.
  assert (handles σ1 !! this = Some h1) as Hh1.
  { rewrite /σ1 /=. by rewrite lookup_insert_eq. }
  assert (remote σ1 !! ref_path (docRef h1) = Some data) as Hr1 by exact Hr.
  pose proof (load_found σ1 this h1 data Hh1 Hr1) as Hload.
  set (h2 := set_docFields _ _) in Hload.
  set (σ2 := with_handles _ _) in Hload.
  assert (handles σ2 !! this = Some h2) as Hh2.
  { rewrite /σ2 /=. by rewrite lookup_insert_eq. }
  assert (objects σ2 !! docFields h2 = Some data) as Ho2.
  { rewrite /σ2 /=. by rewrite lookup_insert_eq. }
  assert (objects σ2 !! fresh (dom (objects σ2)) = None) as Hfresh
    by apply not_elem_of_dom, is_fresh.
  destruct (saved_effect σ2 this h2 data true true)
    as (σ3 & r & Hs & Hh3 & Ho3 & Heff).
  rewrite payload_of_no_changes // in Heff Ho3.
  revert Heff. destruct (decide _) as [_|?]; [|done]. intros (-> & Hr3 & Hc3).
  exists σ1, σ2, σ3, (set_docFieldKeysChanged [] h2).
  split; [exact Hset|]. split; [exact Hload|].
  split; [by rewrite (FireDoc_save_run _ _ _ _ None Hh2 Ho2)|].
  split; [by rewrite Hh3 lookup_insert_eq|]. split; [done|].
  split; [|by rewrite Hr3 Hc3].
  rewrite Ho3 lookup_insert_ne; [|exact Ho2].
  intros E. rewrite E in Hfresh. simpl in Hfresh, Ho2. congruence.
Qed.

Lemma load_discards_changes_witness :
  ∃ σ1 σ2 σ3 h3,
    setField 1%positive "n" (VNum 9) example_state1 = (σ1, Ok 1%positive) ∧
    load 1%positive σ1 = (σ2, Ok 1%positive) ∧
    FireDoc_save 1%positive None σ2 = (σ3, Ok 1%positive) ∧
    handles σ3 !! 1%positive = Some h3 ∧
    docFieldKeysChanged h3 = [] ∧
    objects σ3 !! docFields h3
      = Some {[ "n" := VNum 1; "t" := VTimestamp 5 0 ]} ∧
    remote σ3 = remote example_state1 ∧
    calls σ3 = calls example_state1 ++ [CallGet "users/a"].
Proof.
  apply (load_discards_changes example_state1 1%positive example_handle
           example_fields {[ "n" := VNum 1; "t" := VTimestamp 5 0 ]}
           "n" (VNum 9)); reflexivity.
Defined.

(** ** [setFields] *)

Lemma set_docFieldKeysChanged_id h :
  set_docFieldKeysChanged (docFieldKeysChanged h) h = h.
Proof. by destruct h. Qed.

Lemma forEach_setField_run this (entries : list (string * value)) :
  ∀ σ h (o : Obj),
    handles σ !! this = Some h →
    objects σ !! docFields h = Some o →
    forEach_setField this entries σ
    = (with_handles
         <[this := set_docFieldKeysChanged
                     (docFieldKeysChanged h ++ entries.*1) h]>
         (with_objects
            <[docFields h :=
                foldl (λ acc entry, <[entry.1 := to_store entry.2]> acc) o entries]>
            σ),
       Ok tt).
Proof.
  induction entries as [|[k v] entries IH]; intros σ h o Hh Ho.
  - rewrite /forEach_setField /= app_nil_r set_docFieldKeysChanged_id.
    rewrite /mret /M_ret.
    f_equal. apply State_eq; simpl; try done; by rewrite insert_id.
  - rewrite /forEach_setField. cbn [for_of].
    rewrite bind_run bind_run (setField_run _ _ _ _ k v Hh Ho).
    cbv beta iota. rewrite /mret /M_ret. cbv beta iota.
    set (h1 := set_docFieldKeysChanged _ h). set (σ1 := with_handles _ _).
    assert (handles σ1 !! this = Some h1) as Hh1.
    { rewrite /σ1 /=. by rewrite lookup_insert_eq. }
    assert (objects σ1 !! docFields h1 = Some (<[k := to_store v]> o)) as Ho1.
    { rewrite /σ1 /=. by rewrite lookup_insert_eq. }
    rewrite -/(forEach_setField this entries) (IH σ1 h1 _ Hh1 Ho1).
    f_equal. apply State_eq; simpl; try done.
    + by rewrite insert_insert_eq.
    + rewrite insert_insert_eq -app_assoc. done.
Qed.

Lemma foldl_insert_lookup (f : value → value) (entries : list (string * value)) :
  ∀ (acc : Obj) key,
    NoDup entries.*1 →
    foldl (λ acc entry, <[entry.1 := f entry.2]> acc) acc entries !! key
    = match (list_to_map entries : Obj) !! key with
      | Some v => Some (f v)
      | None => acc !! key
      end.
Proof.
  induction entries as [|[k v] entries IH]; intros acc key Hnd.
  - by rewrite /= lookup_empty.
  - apply NoDup_cons in Hnd as [Hk Hnd]. rewrite /= IH //.
    destruct (decide (key = k)) as [->|Hne].
    + rewrite (not_elem_of_list_to_map_1 _ _ Hk) !lookup_insert_eq. done.
    + rewrite !lookup_insert_ne //.
Qed.

(** X15: [setFields(fields)] stores every entry of [fields] as [setField]
    does, whatever the order in which the entries are visited: afterwards a
    key of [fields] holds its value, or the deletion marker where the value
    is [undefined], the other keys of the handle are as before, and the
    changed keys have grown by the keys of [fields] in the order of the
    visit; the collaborator is not called. *)
Theorem setFields_effect σ this h (o fields : Obj) l
    (entries : list (string * value)) :
  handles σ !! this = Some h →
  objects σ !! docFields h = Some o →
  objects σ !! l = Some fields →
  entries ≡ₚ Object_entries fields →
  (∃ σ', setFields this l σ = (σ', Ok this) ∧
         forEach_setField this (Object_entries fields) σ = (σ', Ok tt)) ∧
  ∃ σ' (o' : Obj),
    forEach_setField this entries σ = (σ', Ok tt) ∧
    handles σ' !! this
      = Some (set_docFieldKeysChanged (docFieldKeysChanged h ++ entries.*1) h) ∧
    objects σ' !! docFields h = Some o' ∧
    (∀ key, o' !! key = match fields !! key with
                        | Some v => Some (to_store v)
                        | None => o !! key
                        end) ∧
    remote σ' = remote σ ∧ calls σ' = calls σ.
Proof.
  intros Hh Ho Hl Hperm. split.
  { rewrite /setFields (bind_ok _ _ _ _ _ (read_object_run _ _ _ Hl)).
    rewrite bind_run (forEach_setField_run _ _ _ _ _ Hh Ho). by eexists. }
  rewrite (forEach_setField_run _ _ _ _ _ Hh Ho).
  do 2 eexists. split; [done|]. simpl. rewrite !lookup_insert_eq.
  split; [done|]. split; [done|]. split; [|done].
  intros key. rewrite foldl_insert_lookup.
  - rewrite Hperm. apply NoDup_fst_map_to_list.
  - rewrite (list_to_map_proper entries (map_to_list fields)).
    + rewrite Hperm. apply NoDup_fst_map_to_list.
    + done.
    + by rewrite list_to_map_to_list.
Qed.

Lemma setFields_effect_witness :
  (∃ σ', setFields 1%positive 1%positive example_state1 = (σ', Ok 1%positive) ∧
         forEach_setField 1%positive (Object_entries example_fields) example_state1
           = (σ', Ok tt)) ∧
  ∃ σ' (o' : Obj),
    forEach_setField 1%positive [("t", VTimestamp 9 0); ("n", VNum 8)]
      example_state1 = (σ', Ok tt) ∧
    handles σ' !! 1%positive
      = Some (set_docFieldKeysChanged ["n"; "t"; "n"] example_handle) ∧
    objects σ' !! 1%positive = Some o' ∧
    (∀ key, o' !! key = match example_fields !! key with
                        | Some v => Some (to_store v)
                        | None => example_fields !! key
                        end) ∧
    remote σ' = remote example_state1 ∧ calls σ' = calls example_state1.
Proof.
  apply (setFields_effect example_state1 1%positive example_handle example_fields
           example_fields 1%positive [("t", VTimestamp 9 0); ("n", VNum 8)]).
  - reflexivity.
  - reflexivity.
  - reflexivity.
  - change (Object_entries _) with [("n", VNum 8); ("t", VTimestamp 9 0)].
    apply perm_swap.
Defined.

(** ** [withQuery] and [withDocRef] *)

Lemma populated_mono σ σ' path this i (data : Obj) :
  handles σ ⊆ handles σ' → objects σ ⊆ objects σ' →
  populated σ path this i data → populated σ' path this i data.
Proof.
  intros Hh Ho (h & ? & ? & ? & ? & ?). exists h. repeat split; try done.
  - by apply (lookup_weaken (handles σ)).
  - by apply (lookup_weaken (objects σ)).
Qed.

Lemma populate_run σ path i (data : Obj) :
  i ≠ "" →
  ∃ σ' this,
    (l ← new_object data; FireDoc_constructor (Some i) (Some l) path) σ
      = (σ', Ok this) ∧
    handles σ ⊆ handles σ' ∧ objects σ ⊆ objects σ' ∧
    remote σ' = remote σ ∧ calls σ' = calls σ ∧
    populated σ' path this i data.
Proof.
  intros Hi.
  assert (truthy (Some i) = true) as Ht.
  { rewrite /truthy. apply String.eqb_neq in Hi. by rewrite Hi. }
  assert (objects σ !! fresh (dom (objects σ)) = None) as Hlo
    by apply not_elem_of_dom, is_fresh.
  assert (handles σ !! fresh (dom (handles σ)) = None) as Hth
    by apply not_elem_of_dom, is_fresh.
  rewrite bind_run /new_object. cbv beta iota zeta.
  set (σ1 := with_objects _ σ).
  assert (fields_exist σ1 (Some (fresh (dom (objects σ))))) as Hpre.
  { exists data. rewrite /σ1 /=. by rewrite lookup_insert_eq. }
  pose proof (constructor_run false (Some i) (Some (fresh (dom (objects σ))))
                path σ1 Hpre) as Hrun.
  cbv zeta in Hrun. rewrite Ht in Hrun.
  rewrite /FireDoc_constructor Ht Hrun.
  do 2 eexists. split; [done|]. simpl.
  split; [by apply insert_subseteq|]. split; [by apply insert_subseteq|].
  split; [done|]. split; [done|].
  eexists. rewrite lookup_insert_eq. split; [reflexivity|].
  simpl. by rewrite lookup_insert_eq.
Qed.

Lemma mapM_populate path : ∀ (docs : list (string * Obj)) σ,
  (∀ doc, doc ∈ docs → doc.1 ≠ "") →
  ∃ σ' hs,
    mapM (λ doc : string * Obj,
            data ← new_object doc.2;
            FireDoc_constructor (Some doc.1) (Some data) path) docs σ
      = (σ', Ok hs) ∧
    handles σ ⊆ handles σ' ∧ objects σ ⊆ objects σ' ∧
    remote σ' = remote σ ∧ calls σ' = calls σ ∧
    Forall2 (λ this doc, populated σ' path this doc.1 doc.2) hs docs.
Proof.
  induction docs as [|[i data] docs IH]; intros σ Hids.
  - exists σ, []. by repeat split.
  - destruct (populate_run σ path i data) as (σ1 & this & Hrun & Hh1 & Ho1 & Hr1 & Hc1 & Hp1).
    { apply (Hids (i, data)), list_elem_of_here. }
    destruct (IH σ1) as (σ' & hs & Hrun' & Hh' & Ho' & Hr' & Hc' & Hp').
    { intros doc Hdoc. by apply Hids, list_elem_of_further. }
    exists σ', (this :: hs). split; [|split; [|split; [|split; [|split]]]].
    + cbn [mapM]. rewrite (bind_ok _ _ _ _ _ Hrun).
      by rewrite (bind_ok _ _ _ _ _ Hrun').
    + by trans (handles σ1).
    + by trans (objects σ1).
    + by rewrite Hr'.
    + by rewrite Hc'.
    + constructor; [|done]. by apply (populated_mono σ1).
Qed.

Lemma Forall2_impl_elem {A B} (P Q : A → B → Prop) l k :
  Forall2 P l k → (∀ x y, y ∈ k → P x y → Q x y) → Forall2 Q l k.
Proof.
  induction 1 as [|x y l k HP _ IH]; intros HQ; constructor.
  - apply HQ; [apply list_elem_of_here|done].
  - apply IH. intros x' y' Hin. by apply HQ, list_elem_of_further.
Qed.

(** X16: [withQuery] on a query over the binder's own collection issues
    that one query and no [get], and returns one handle per snapshot, in
    order: each is bound to the snapshot's document, holds its data in a new
    object and has no changed key, which is what [withId(id).load()] gives. *)
Theorem withQuery_populates path query σ :
  query_collection query = collection path →
  ∃ σ' hs,
    withQuery path query σ = (σ', Ok hs) ∧
    remote σ' = remote σ ∧
    calls σ' = calls σ ++ [CallQuery (collection path) (query_offset query)
                                     (query_limit query)] ∧
    Forall2 (loaded σ' path) hs
      (take (query_limit query)
         (drop (query_offset query)
            (collection_docs (remote σ) (collection path)))).*1.
Proof.
  intros Hq. rewrite /withQuery Hq bind_run Query_get_run.
  set (docs := take _ _). set (σ1 := log_calls _ σ).
  assert (∀ doc, doc ∈ docs → doc ∈ collection_docs (remote σ) (collection path))
    as Hsub.
  { intros doc (n & Hn & _)%elem_of_take. rewrite lookup_drop in Hn.
    by apply list_elem_of_lookup_2 in Hn. }
  destruct (mapM_populate path docs σ1) as (σ' & hs & Hrun & _ & _ & Hr & Hc & Hp).
  { intros [i data] Hdoc%Hsub. by apply elem_of_collection_docs in Hdoc as [_ ?]. }
  exists σ', hs. split; [done|]. split; [done|]. split; [done|].
  apply Forall2_fmap_r. eapply Forall2_impl_elem; [exact Hp|].
  intros this [i data] Hdoc%Hsub (h & ? & ? & ? & ? & ?).
  apply elem_of_collection_docs in Hdoc as [Hdata _].
  exists h, data. rewrite Hr. done.
Qed.

Lemma withQuery_populates_witness :
  ∃ σ' hs,
    withQuery (Literal "users")
      {| query_collection := "users"; query_offset := 1; query_limit := 5 |}
      example_state = (σ', Ok hs) ∧
    remote σ' = remote example_state ∧
    calls σ' = calls example_state ++ [CallQuery "users" 1 5] ∧
    Forall2 (loaded σ' (Literal "users")) hs
      (take 5 (drop 1 (collection_docs (remote example_state) "users"))).*1.
Proof.
  apply (withQuery_populates (Literal "users")
           {| query_collection := "users"; query_offset := 1; query_limit := 5 |}
           example_state).
  reflexivity.
Defined.

(** The query of the example skips one of the three documents. *)
Example withQuery_example :
  (take 5 (drop 1 (collection_docs (remote example_state) "users"))).*1
  = ["a"; "b"].
Proof. vm_compute. reflexivity. Qed.

(** X17: [withDocRef] never throws.  It issues one [get] on the given
    reference and returns a handle with no changed key that holds the data
    of the document, or no field at all when the document is missing.  The
    handle is bound to the binder's collection path and the id of the
    reference, not to the reference: a [load] on it succeeds exactly when
    the binder's collection has a document with that id. *)
Theorem withDocRef_populates path docRef σ :
  ref_id docRef ≠ "" →
  ∃ σ' this σ2,
    withDocRef path docRef σ = (σ', Ok this) ∧
    populated σ' path this (ref_id docRef)
      (default ∅ (remote σ !! ref_path docRef)) ∧
    remote σ' = remote σ ∧
    calls σ' = calls σ ++ [CallGet (ref_path docRef)] ∧
    load this σ'
    = (σ2, match remote σ !! (resolve path +:+ "/" +:+ ref_id docRef) with
           | Some _ => Ok this
           | None => Throw (not_found (ref_id docRef))
           end).
Proof.
  intros Hi.
  assert (DocRef_get docRef σ
          = (log_call (CallGet (ref_path docRef)) σ, Ok (remote σ !! ref_path docRef)))
    as Hget by done.
  rewrite /withDocRef (bind_ok _ _ _ _ _ Hget).
  set (σ0 := log_call _ σ).
  assert (∀ σ' this,
    populated σ' path this (ref_id docRef) (default ∅ (remote σ !! ref_path docRef)) →
    remote σ' = remote σ →
    ∃ σ2, load this σ'
          = (σ2, match remote σ !! (resolve path +:+ "/" +:+ ref_id docRef) with
                 | Some _ => Ok this
                 | None => Throw (not_found (ref_id docRef))
                 end)) as Hload.
  { intros σ' this (h & Hh & Hid & Href & _) Hr.
    destruct (remote σ !! (resolve path +:+ "/" +:+ ref_id docRef)) as [d|] eqn:E.
    - eexists. apply (load_found σ' this h d Hh). by rewrite Href Hr.
    - eexists. rewrite -Hid. apply (load_missing σ' this h Hh). by rewrite Href Hr. }
  destruct (remote σ !! ref_path docRef) as [d|] eqn:Hd.
  - destruct (populate_run σ0 path (ref_id docRef) d Hi)
      as (σ' & this & Hrun & _ & _ & Hr & Hc & Hp).
    destruct (Hload σ' this Hp Hr) as [σ2 Hl].
    exists σ', this, σ2. split; [|done].
    rewrite -Hrun /new_object !bind_run /=. done.
  - pose proof (constructor_run false (Some (ref_id docRef)) None path σ0 I) as Hrun.
    cbv zeta in Hrun.
    assert (truthy (Some (ref_id docRef)) = true) as Ht.
    { rewrite /truthy. apply String.eqb_neq in Hi. by rewrite Hi. }
    rewrite Ht in Hrun. rewrite bind_run /mret /M_ret /FireDoc_constructor Ht Hrun.
    set (σ' := with_handles _ _).
    assert (populated σ' path (fresh (dom (handles σ0))) (ref_id docRef) ∅) as Hp.
    { eexists. rewrite /σ' /= lookup_insert_eq. split; [reflexivity|].
      simpl. by rewrite lookup_insert_eq. }
    destruct (Hload σ' _ Hp) as [σ2 Hl]; [done|].
    by exists σ', (fresh (dom (handles σ0))), σ2.
Qed.

Lemma withDocRef_populates_witness :
  ∃ σ' this σ2,
    withDocRef (Literal "users") (Firestore_doc "other/z") example_state
      = (σ', Ok this) ∧
    populated σ' (Literal "users") this "z" ∅ ∧
    remote σ' = remote example_state ∧
    calls σ' = calls example_state ++ [CallGet "other/z"] ∧
    load this σ' = (σ2, Throw (not_found "z")).
Proof.
  apply (withDocRef_populates (Literal "users") (Firestore_doc "other/z")
           example_state).
  discriminate.
Defined.

(** ** More on the scan and the pages *)

Lemma scanned_filter filter (docs : list (string * Obj)) : ∀ k from,
  scanned filter docs from k
  = (List.filter (λ doc, filter doc.2 doc.1)
       (take (k * searchPerPage) (drop (from * searchPerPage) docs))).*1.
Proof.
  induction k as [|k IH]; intros from; [done|].
  rewrite /scanned /= -/(scanned filter docs (S from) k) IH.
  rewrite /window_matches /window -fmap_app -List.filter_app. do 2 f_equal.
  rewrite -(take_take_drop _ searchPerPage (k * searchPerPage)) drop_drop.
  do 3 f_equal. rewrite /searchPerPage. lia.
Qed.

Lemma NoDup_filter_fst {B} (f : string * B → bool) (l : list (string * B)) :
  NoDup l.*1 → NoDup (List.filter f l).*1.
Proof.
  induction l as [|[i b] l IH]; [done|]. rewrite fmap_cons NoDup_cons.
  intros [Hi Hl]. cbn [List.filter]. destruct (f (i, b)); [|by apply IH].
  cbn [fmap list_fmap fst]. apply NoDup_cons. split; [|by apply IH].
  intros ([i' b'] & -> & Hin)%list_elem_of_fmap.
  apply list_elem_of_In, filter_In in Hin as [Hin%list_elem_of_In _].
  apply Hi, list_elem_of_fmap. by exists (i', b').
Qed.

Lemma NoDup_scanned filter (r : gmap string Obj) collection k :
  NoDup (scanned filter (collection_docs r collection) 0 k).
Proof.
  rewrite scanned_filter. apply NoDup_filter_fst.
  apply (sublist_NoDup _ (collection_docs r collection).*1);
    [apply NoDup_collection_ids|].
  apply fmap_sublist. rewrite drop_0. apply sublist_take.
Qed.

Lemma NoDup_Array_slice {A} (l : list A) start finish :
  NoDup l → NoDup (Array_slice l start finish).
Proof.
  intros Hl. rewrite /Array_slice.
  eapply sublist_NoDup; [exact Hl|].
  etrans; [apply sublist_take|apply sublist_drop].
Qed.

(** X18: the scan is exhaustive when every window that starts inside the
    collection has a match, for instance when the filter accepts every
    document: the accumulated list then holds the ids of all the matches of
    the collection, in listing order. *)
Theorem scan_is_exhaustive collection fuel filter σ :
  length (collection_docs (remote σ) collection) < fuel →
  (∀ j, j * searchPerPage < length (collection_docs (remote σ) collection) →
        window_matches filter (collection_docs (remote σ) collection) j ≠ []) →
  ∃ σ1,
    scan fuel collection filter 0 [] σ
    = (σ1, Ok (List.filter (λ doc, filter doc.2 doc.1)
                 (collection_docs (remote σ) collection)).*1).
Proof.
  intros Hfuel Hall.
  destruct (scan_spec fuel collection filter σ 0 []) as (k & Hz & _ & Hscan);
    [lia|].
  eexists. rewrite Hscan /= scanned_filter drop_0 take_ge; [|done].
  destruct (decide (length (collection_docs (remote σ) collection)
                    ≤ k * searchPerPage)%nat) as [|Hlt]; [done|].
  exfalso. apply (Hall k); [lia|done].
Qed.

Lemma scan_is_exhaustive_witness :
  ∃ σ1,
    scan 260 "items" (λ _ _, true) 0 [] big_state
    = (σ1, Ok (List.filter (λ _, true) (collection_docs big_remote "items")).*1).
Proof.
  apply (scan_is_exhaustive "items" 260 (λ _ _, true) big_state).
  - vm_compute. lia.
  - assert (length (collection_docs (remote big_state) "items") = 250) as ->
      by (vm_compute; reflexivity).
    intros [|[|[|j]]] Hj; [by vm_compute..|].
    rewrite /searchPerPage in Hj. lia.
Defined.

(** X19: [withRawFilter] only reads: the remote store is as before, and
    no document is returned twice: the accumulated ids are pairwise
    distinct and so are the returned handles. *)
Theorem returned_docs_are_distinct path fuel page perPage filter σ :
  length (collection_docs (remote σ) (resolve path)) < fuel →
  ∃ σ1 found σ' allPages hs,
    scan fuel (resolve path) filter 0 [] σ = (σ1, Ok found) ∧
    withRawFilter path fuel page perPage filter σ = (σ', Ok (allPages, hs)) ∧
    remote σ' = remote σ ∧
    NoDup found ∧
    NoDup hs.
Proof.
  intros Hfuel.
  destruct (withRawFilter_spec path fuel page perPage filter σ Hfuel)
    as (k & σ' & hs & _ & _ & Hscan & Hrun & Hr & _ & Hl).
  do 5 eexists. split; [exact Hscan|]. split; [exact Hrun|]. split; [done|].
  split; [apply NoDup_scanned|].
  apply NoDup_alt. intros a b this Ha Hb.
  destruct (Forall2_lookup_l _ _ _ _ _ Hl Ha) as (ia & Hia & ha & ? & Hha & Hida & _).
  destruct (Forall2_lookup_l _ _ _ _ _ Hl Hb) as (ib & Hib & hb & ? & Hhb & Hidb & _).
  rewrite Hha in Hhb. injection Hhb as <-.
  eapply NoDup_lookup; [|exact Hia|by rewrite Hib -Hidb Hida].
  apply NoDup_Array_slice, NoDup_scanned.
Qed.

Lemma returned_docs_are_distinct_witness :
  ∃ σ1 found σ' allPages hs,
    scan 260 "items" five_filter 0 [] big_state = (σ1, Ok found) ∧
    withRawFilter (Literal "items") 260 1 3 five_filter big_state
      = (σ', Ok (allPages, hs)) ∧
    remote σ' = remote big_state ∧
    NoDup found ∧
    NoDup hs.
Proof.
  apply (returned_docs_are_distinct (Literal "items") 260 1 3 five_filter big_state).
  vm_compute. lia.
Defined.

(** X20: the scan issues queries only, one per window it looks at, and at
    most two more than the collection has full windows. *)
Theorem scan_query_bound collection fuel filter σ :
  length (collection_docs (remote σ) collection) < fuel →
  ∃ σ1 found k,
    scan fuel collection filter 0 [] σ = (σ1, Ok found) ∧
    remote σ1 = remote σ ∧ objects σ1 = objects σ ∧ handles σ1 = handles σ ∧
    calls σ1 = calls σ ++
      ((λ j, CallQuery collection (j * searchPerPage) searchPerPage) <$> seq 0 k) ∧
    (k ≤ length (collection_docs (remote σ) collection) `div` searchPerPage + 2)%nat.
Proof.
  intros Hfuel.
  destruct (scan_spec fuel collection filter σ 0 []) as (k & _ & Hnz & Hscan);
    [lia|].
  exists (log_calls (queries collection 0 (S k)) σ). eexists. exists (S k).
  split; [exact Hscan|]. do 4 (split; [done|]).
  destruct k as [|k]; [lia|].
  assert (k * searchPerPage < length (collection_docs (remote σ) collection)) as Hk.
  { apply (window_matches_nonempty filter). apply (Hnz k). lia. }
  rewrite /searchPerPage in Hk |- *.
  pose proof (Nat.div_mod_eq (length (collection_docs (remote σ) collection)) 100).
  pose proof (Nat.mod_upper_bound (length (collection_docs (remote σ) collection)) 100).
  lia.
Qed.

Lemma scan_query_bound_witness :
  ∃ σ1 found k,
    scan 260 "items" five_filter 0 [] big_state = (σ1, Ok found) ∧
    remote σ1 = remote big_state ∧ objects σ1 = objects big_state ∧
    handles σ1 = handles big_state ∧
    calls σ1 = calls big_state ++
      ((λ j, CallQuery "items" (j * searchPerPage) searchPerPage) <$> seq 0 k) ∧
    (k ≤ length (collection_docs (remote big_state) "items") `div` searchPerPage + 2)%nat.
Proof.
  apply (scan_query_bound "items" 260 five_filter big_state).
  vm_compute. lia.
Defined.

Lemma Array_slice_to_zero {A} (l : list A) start : Array_slice l start 0 = [].
Proof.
  rewrite /Array_slice.
  set (len := Z.of_nat (length l)).
  assert (Z.to_nat (relative_index len 0 - relative_index len start) = 0) as ->;
    [|done].
  rewrite /relative_index. destruct (start <? 0)%Z eqn:E; simpl; lia.
Qed.

Lemma Array_slice_zero_width {A} (l : list A) page :
  Array_slice l (0 * (page - 1)) (0 * page) = [].
Proof. rewrite !Z.mul_0_l. apply Array_slice_to_zero. Qed.

Lemma pages_take {A} (l : list A) perPage : (1 ≤ perPage)%Z → ∀ m,
  mjoin ((λ p, Array_slice l (perPage * (Z.of_nat (S p) - 1))
                             (perPage * Z.of_nat (S p))) <$> seq 0 m)
  = take (m * Z.to_nat perPage) l.
Proof.
  intros Hper. induction m as [|m IH]; [done|].
  rewrite seq_S fmap_app join_app IH /= app_nil_r Array_slice_page; [lia..|].
  replace (Z.to_nat ((Z.of_nat (S m) - 1) * perPage)) with (m * Z.to_nat perPage)
    by nia.
  rewrite take_take_drop. f_equal. lia.
Qed.

(** X21: on a page inside the range, that is for [1 ≤ page ≤ allPages]
    with a positive page size, [withRawFilter] returns a full page of
    [perPage] handles, except on the last page, which holds what is left and
    at least one; beyond the last page it returns none. *)
Theorem page_sizes path fuel page perPage filter σ :
  length (collection_docs (remote σ) (resolve path)) < fuel →
  (1 ≤ page)%Z → (1 ≤ perPage)%Z →
  ∃ σ1 found σ' n hs,
    scan fuel (resolve path) filter 0 [] σ = (σ1, Ok found) ∧
    withRawFilter path fuel page perPage filter σ = (σ', Ok (Num n, hs)) ∧
    ((page < n)%Z → Z.of_nat (length hs) = perPage) ∧
    (page = n →
       Z.of_nat (length hs) = (Z.of_nat (length found) - (n - 1) * perPage)%Z ∧
       (1 ≤ Z.of_nat (length hs) ≤ perPage)%Z) ∧
    ((n < page)%Z → hs = []).
Proof.
  intros Hfuel Hpage Hper.
  destruct (withRawFilter_spec path fuel page perPage filter σ Hfuel)
    as (k & σ' & hs & _ & _ & Hscan & Hrun & _ & _ & Hl).
  set (found := scanned filter (collection_docs (remote σ) (resolve path)) 0 k)
    in Hscan, Hrun, Hl.
  destruct (Math_ceil_div_pos (Z.of_nat (length found)) perPage) as (n & Hn & Hb);
    [lia|done|].
  rewrite Hn in Hrun.
  apply Forall2_length in Hl. move: Hl.
  rewrite Array_slice_page // length_take length_drop => Hl.
  exists (log_calls (queries (resolve path) 0 (S k)) σ), found, σ', n, hs.
  split; [done|]. split; [done|].
  split; [|split]; [intros Hlt|intros ->|intros Hlt].
  - nia.
  - nia.
  - apply length_zero_iff_nil. nia.
Qed.

Lemma page_sizes_witness :
  ∃ σ1 found σ' n hs,
    scan 260 "items" five_filter 0 [] big_state = (σ1, Ok found) ∧
    withRawFilter (Literal "items") 260 2 3 five_filter big_state
      = (σ', Ok (Num n, hs)) ∧
    ((2 < n)%Z → Z.of_nat (length hs) = 3%Z) ∧
    (2%Z = n →
       Z.of_nat (length hs) = (Z.of_nat (length found) - (n - 1) * 3)%Z ∧
       (1 ≤ Z.of_nat (length hs) ≤ 3)%Z) ∧
    ((n < 2)%Z → hs = []).
Proof.
  apply (page_sizes (Literal "items") 260 2 3 five_filter big_state);
    [vm_compute; lia|lia..].
Defined.

(** X22: the pages are a partition of the accumulated list: for a
    positive page size, the slices taken for the pages 1, 2, ..., allPages,
    one after the other, give back the whole list, each element once and in
    order. *)
Theorem pages_partition {A} (found : list A) (perPage n : Z) :
  (1 ≤ perPage)%Z →
  Math_ceil_div (Z.of_nat (length found)) perPage = Num n →
  mjoin ((λ p, Array_slice found (perPage * (Z.of_nat (S p) - 1))
                                 (perPage * Z.of_nat (S p)))
         <$> seq 0 (Z.to_nat n))
  = found.
Proof.
  intros Hper Hn.
  destruct (Math_ceil_div_pos (Z.of_nat (length found)) perPage) as (n' & Hn' & Hb);
    [lia|done|].
  rewrite Hn in Hn'. injection Hn' as <-.
  rewrite pages_take // take_ge //. nia.
Qed.

Lemma pages_partition_witness :
  Math_ceil_div (Z.of_nat (length ["a"; "b"; "c"; "d"; "e"])) 2 = Num 3 ∧
  mjoin ((λ p, Array_slice ["a"; "b"; "c"; "d"; "e"]
                 (2 * (Z.of_nat (S p) - 1)) (2 * Z.of_nat (S p)))
         <$> seq 0 (Z.to_nat 3))
  = ["a"; "b"; "c"; "d"; "e"].
Proof.
  split; [reflexivity|].
  apply (pages_partition ["a"; "b"; "c"; "d"; "e"] 2 3); [lia|reflexivity].
Defined.

(** X23: degenerate arguments do not fail.  With a page size of 0 the
    page count is not a number of pages: it is [Infinity] when something matched
    and [NaN] when nothing did; and no handle is returned.  With page 0 no
    handle is returned either, whatever the page size.  In both cases nothing
    happens after the scan: no handle is built and no document is read. *)
Theorem degenerate_pages path fuel filter σ :
  length (collection_docs (remote σ) (resolve path)) < fuel →
  ∃ σ1 found,
    scan fuel (resolve path) filter 0 [] σ = (σ1, Ok found) ∧
    (∀ page,
       withRawFilter path fuel page 0 filter σ
       = (σ1, Ok (match found with [] => NaN | _ => Infinity end, []))) ∧
    (∀ perPage,
       withRawFilter path fuel 0 perPage filter σ
       = (σ1, Ok (Math_ceil_div (Z.of_nat (length found)) perPage, []))).
Proof.
  intros Hfuel.
  destruct (scan_spec fuel (resolve path) filter σ 0 []) as (k & _ & _ & Hscan);
    [lia|].
  do 2 eexists. split; [exact Hscan|]. split.
  - intros page. rewrite /withRawFilter bind_run Hscan.
    cbn beta iota zeta. rewrite Array_slice_zero_width /=.
    by destruct (scanned _ _ _ _).
  - intros perPage. rewrite /withRawFilter bind_run Hscan.
    cbn beta iota zeta. by rewrite Z.mul_0_r Array_slice_to_zero.
Qed.

Lemma degenerate_pages_witness :
  ∃ σ1 found,
    scan 260 "items" five_filter 0 [] big_state = (σ1, Ok found) ∧
    (∀ page,
       withRawFilter (Literal "items") 260 page 0 five_filter big_state
       = (σ1, Ok (match found with [] => NaN | _ => Infinity end, []))) ∧
    (∀ perPage,
       withRawFilter (Literal "items") 260 0 perPage five_filter big_state
       = (σ1, Ok (Math_ceil_div (Z.of_nat (length found)) perPage, []))).
Proof.
  apply (degenerate_pages (Literal "items") 260 five_filter big_state).
  vm_compute. lia.
Defined.

Lemma objects_bump_autoId σ : objects (bump_autoId σ) = objects σ.
Proof. done. Qed.

Lemma handles_bump_autoId σ : handles (bump_autoId σ) = handles σ.
Proof. done. Qed.

Lemma construct_default_run id path σ :
  ∃ σ' h,
    FireDoc_constructor id None path σ = (σ', Ok (fresh (dom (handles σ)))) ∧
    handles σ' = <[fresh (dom (handles σ)) := h]> (handles σ) ∧
    objects σ' = <[fresh (dom (objects σ)) := ∅]> (objects σ) ∧
    docFields h = fresh (dom (objects σ)) ∧
    docFieldKeysChanged h = [].
Proof.
  pose proof (constructor_run false id None path σ I) as Hrun.
  cbv zeta in Hrun. rewrite /FireDoc_constructor.
  destruct (truthy id); do 2 eexists; (split; [exact Hrun|]); done.
Qed.

(** X24: the default fields object is not shared.  Two handles built
    without initial fields, whatever their ids, are different handles with
    different fields objects: a field set on the first one is not seen by the
    second, which still has no field and no changed key. *)
Theorem default_fields_are_not_shared path id1 id2 key v σ :
  ∃ σ1 this1 σ2 this2 σ3 h1 h2,
    create path id1 None σ = (σ1, Ok this1) ∧
    create path id2 None σ1 = (σ2, Ok this2) ∧
    setField this1 key v σ2 = (σ3, Ok this1) ∧
    this1 ≠ this2 ∧
    handles σ3 !! this1 = Some h1 ∧
    handles σ3 !! this2 = Some h2 ∧
    docFields h1 ≠ docFields h2 ∧
    objects σ3 !! docFields h1 = Some {[ key := to_store v ]} ∧
    objects σ3 !! docFields h2 = Some ∅ ∧
    docFieldKeysChanged h2 = [].
Proof.
  destruct (construct_default_run id1 path σ) as (σ1 & h1 & Hrun1 & Hh1 & Ho1 & Hf1 & Hk1).
  destruct (construct_default_run id2 path σ1) as (σ2 & h2 & Hrun2 & Hh2 & Ho2 & Hf2 & Hk2).
  set (this1 := fresh (dom (handles σ))) in *.
  set (this2 := fresh (dom (handles σ1))) in *.
  set (l1 := fresh (dom (objects σ))) in *.
  set (l2 := fresh (dom (objects σ1))) in *.
  assert (this1 ≠ this2) as Hne.
  { intros E. apply (is_fresh (dom (handles σ1))). fold this2. rewrite -E Hh1.
    apply elem_of_dom. by rewrite lookup_insert_eq. }
  assert (l1 ≠ l2) as Hnel.
  { intros E. apply (is_fresh (dom (objects σ1))). fold l2. rewrite -E Ho1.
    apply elem_of_dom. by rewrite lookup_insert_eq. }
  assert (handles σ2 !! this1 = Some h1) as Hl1.
  { rewrite Hh2 lookup_insert_ne; [done|]. by rewrite Hh1 lookup_insert_eq. }
  assert (objects σ2 !! docFields h1 = Some ∅) as Hob1.
  { rewrite Hf1 Ho2 lookup_insert_ne; [done|]. by rewrite Ho1 lookup_insert_eq. }
  pose proof (setField_run σ2 this1 h1 ∅ key v Hl1 Hob1) as Hset.
  exists σ1, this1, σ2, this2. do 2 eexists. exists h2.
  split; [exact Hrun1|]. split; [exact Hrun2|]. split; [exact Hset|].
  split; [done|]. split; [by rewrite /= lookup_insert_eq|].
  split; [by rewrite /= lookup_insert_ne // Hh2 lookup_insert_eq|].
  split; [by rewrite /= Hf1 Hf2|].
  split; [by rewrite /= lookup_insert_eq insert_empty|].
  split; [|done].
  by rewrite /= Hf1 Hf2 lookup_insert_ne // Ho2 lookup_insert_eq.
Qed.




(** After [setField("n", undefined)] on the example handle,
    [save('overwrite')] throws in [FireDoc] and succeeds in [Main]. *)
Example save_overwrite_undefined :
  let σ := (setField 1%positive "n" VUndefined example_state0').1 in
  (FireDoc_save 1%positive (Some OptOverwrite) σ).2 = Throw FirestoreError ∧
  (Main_save 1%positive (Some OptOverwrite) σ).2 = Ok 1%positive ∧
  remote (Main_save 1%positive (Some OptOverwrite) σ).1 !! "users/a"
  = Some {[ "t" := VTimestamp 9 0 ]}.
Proof. by vm_compute. Qed.
